(** * Ride-hailing client: DriverDashboard and OffersModal

    A shallow embedding of the two view components of the repository,
    [src/frontend/src/pages/DriverDashboard.tsx] and
    [src/frontend/src/components/User/OffersModal.tsx], and of the few
    JavaScript built-ins they rely on ([parseFloat], [isNaN],
    [String.prototype.toUpperCase], [Array.prototype.sort],
    [Array.prototype.filter]).

    Conventions of the embedding.
    - A component's [useState] cells, its disclosure flag and the query
      cache entry it reads are the fields of a record [View].
    - An event handler is a function [View -> View * list Effect]: the
      state after the handler, and the effects it fired, in order
      (notifications, network requests, query invalidations).  A request
      settles later; its [onSuccess] / [onError] callbacks are handlers
      of their own.
    - Identifiers (ride ids, offer ids) are integers.  Prices and ratings
      that arrive in JSON are finite numbers, modelled by their rational
      value.  Strings are sequences of ASCII code units. *)

From Stdlib Require Import ZArith QArith Lqa Bool List Ascii String Permutation Sorted.
From stdpp Require Import base option gmap.
Import ListNotations.

Local Open Scope Z_scope.

(* ===================================================================== *)
(** * JavaScript built-ins *)
(* ===================================================================== *)

Module JS.

(** ** Numbers

    A JavaScript number is an IEEE 754 binary64 value.  A finite value is
    carried as the rational it denotes; the two zeros are identified. *)
Inductive number : Type :=
| NaN
| PosInfinity
| NegInfinity
| Fin (q : Q).

Definition isNaN (x : number) : bool :=
  match x with NaN => true | _ => false end.

(** [x <= y]: false as soon as one side is [NaN]. *)
Definition le (x y : number) : bool :=
  match x, y with
  | NaN, _ | _, NaN => false
  | NegInfinity, _ => true
  | _, PosInfinity => true
  | PosInfinity, _ => false
  | _, NegInfinity => false
  | Fin p, Fin q => Qle_bool p q
  end.

Definition zero : number := Fin 0.

(** *** Rounding a rational to binary64 (round to nearest, ties to even) *)

(** Nearest integer to [n / d], ties to even; [0 <= n], [0 < d]. *)
Definition round_half_even (n d : Z) : Z :=
  let q := n / d in
  let r := n mod d in
  match (2 * r ?= d) with
  | Lt => q
  | Gt => q + 1
  | Eq => if Z.even q then q else q + 1
  end.

(** The fraction [(n / d) / 2^e]. *)
Definition scale2 (e n d : Z) : Z * Z :=
  if 0 <=? e then (n, d * 2 ^ e) else (n * 2 ^ (- e), d).

(** Exponent of the unit in the last place of the binary64 format at the
    magnitude of [n / d] (both positive): 52 below the binary exponent,
    and never below the subnormal spacing [2^-1074]. *)
Definition ulp_exponent (n d : Z) : Z :=
  let e0 := Z.log2 n - Z.log2 d in
  let '(n', d') := scale2 e0 n d in
  let e := if n' <? d' then e0 - 1 else e0 in
  Z.max (e - 52) (-1074).

(** The rational [m * 2^e]. *)
Definition ldexp (m e : Z) : Q :=
  if 0 <=? e then inject_Z (m * 2 ^ e) else Qred (Qmake m (Z.to_pos (2 ^ (- e)))).

(** Magnitude [n / d > 0] rounded; [None] is overflow. *)
Definition round_magnitude (n d : Z) : option Q :=
  let e := ulp_exponent n d in
  let '(n', d') := scale2 e n d in
  let m := round_half_even n' d' in
  if (971 <? e) || ((e =? 971) && (m =? 2 ^ 53)) then None
  else Some (ldexp m e).

Definition round_double (q : Q) : number :=
  match Qnum q with
  | Z0 => Fin 0
  | Zpos n =>
      match round_magnitude (Zpos n) (Zpos (Qden q)) with
      | Some r => Fin r
      | None => PosInfinity
      end
  | Zneg n =>
      match round_magnitude (Zpos n) (Zpos (Qden q)) with
      | Some r => Fin (- r)
      | None => NegInfinity
      end
  end.

(** ** [parseFloat]

    [parseFloat(string)]: the argument is converted with [ToString]
    ([undefined] becomes the text "undefined"), leading white space is
    dropped, and the longest prefix that is a decimal literal
    (sign, "Infinity", digits, fraction, exponent) is read; no such prefix
    gives [NaN].  The value of the literal is rounded to binary64; white
    space is the ASCII one. *)

Definition ToString (v : option string) : string :=
  match v with
  | Some s => s
  | None => "undefined"
  end.

Definition is_whitespace (c : ascii) : bool :=
  let n := Z.of_nat (nat_of_ascii c) in
  ((9 <=? n) && (n <=? 13)) || (n =? 32).

Fixpoint trimStart (s : string) : string :=
  match s with
  | String c s' => if is_whitespace c then trimStart s' else s
  | EmptyString => s
  end.

Definition digit_value (c : ascii) : option Z :=
  let n := Z.of_nat (nat_of_ascii c) in
  if (48 <=? n) && (n <=? 57) then Some (n - 48) else None.

(** Reads a run of decimal digits: the value accumulated onto [acc], the
    number of digits read added to [cnt], and the rest of the text. *)
Fixpoint read_digits (s : string) (acc cnt : Z) : Z * Z * string :=
  match s with
  | String c s' =>
      match digit_value c with
      | Some d => read_digits s' (10 * acc + d) (cnt + 1)
      | None => (acc, cnt, s)
      end
  | EmptyString => (acc, cnt, s)
  end.

(** Optional sign: [true] for a minus. *)
Definition read_sign (s : string) : bool * string :=
  match s with
  | String "-" s' => (true, s')
  | String "+" s' => (false, s')
  | _ => (false, s)
  end.

(** ExponentPart: [e] or [E], an optional sign and at least one digit;
    anything else leaves the exponent at 0. *)
Definition read_exponent (s : string) : Z :=
  match s with
  | String c s' =>
      if (c =? "e")%char || (c =? "E")%char then
        let '(neg, s'') := read_sign s' in
        let '(v, k, _) := read_digits s'' 0 0 in
        if k =? 0 then 0 else if neg then - v else v
      else 0
  | EmptyString => 0
  end.

(** The rational [m * 10^e]. *)
Definition decimal (m e : Z) : Q :=
  if 0 <=? e then inject_Z (m * 10 ^ e) else Qmake m (Z.to_pos (10 ^ (- e))).

(** StrUnsignedDecimalLiteral without the Infinity case: the mathematical
    value of the longest literal prefix, or [None]. *)
Definition read_unsigned (s : string) : option Q :=
  let '(i, ni, s1) := read_digits s 0 0 in
  match s1 with
  | String "." s2 =>
      let '(m, nf, s3) := read_digits s2 i 0 in
      if (ni =? 0) && (nf =? 0) then None
      else Some (decimal m (read_exponent s3 - nf))
  | _ =>
      if ni =? 0 then None else Some (decimal i (read_exponent s1))
  end.

Definition parseFloat (v : option string) : number :=
  let '(neg, s) := read_sign (trimStart (ToString v)) in
  if String.prefix "Infinity" s then (if neg then NegInfinity else PosInfinity)
  else
    match read_unsigned s with
    | Some q => round_double (if neg then - q else q)
    | None => NaN
    end.

(** A text of white space only (the empty text included). *)
Fixpoint blank (s : string) : bool :=
  match s with
  | String c s' => is_whitespace c && blank s'
  | EmptyString => true
  end.

(** ** Truthiness of a [number | null] value: [null], [0] and [NaN] are
    falsy.  Used on integer identifiers. *)
Definition truthy (v : option Z) : bool :=
  match v with
  | Some n => negb (n =? 0)
  | None => false
  end.

(** ** [String.prototype.toUpperCase], on ASCII text: the letters [a]-[z]
    go to [A]-[Z], every other code unit stays. *)
Definition is_lower (c : ascii) : bool :=
  let n := Z.of_nat (nat_of_ascii c) in (97 <=? n) && (n <=? 122).

Definition is_upper (c : ascii) : bool :=
  let n := Z.of_nat (nat_of_ascii c) in (65 <=? n) && (n <=? 90).

Definition upper_char (c : ascii) : ascii :=
  if is_lower c then ascii_of_nat (nat_of_ascii c - 32) else c.

Fixpoint toUpperCase (s : string) : string :=
  match s with
  | String c s' => String (upper_char c) (toUpperCase s')
  | EmptyString => EmptyString
  end.

(** Two texts that differ only in the case of their letters: the same
    length, and at each position the same code unit or the two cases of
    one letter. *)
Definition swap_case (c : ascii) : ascii :=
  if is_lower c then ascii_of_nat (nat_of_ascii c - 32)
  else if is_upper c then ascii_of_nat (nat_of_ascii c + 32)
  else c.

Fixpoint differ_only_in_case (s1 s2 : string) : bool :=
  match s1, s2 with
  | EmptyString, EmptyString => true
  | String c1 s1', String c2 s2' =>
      ((c1 =? c2)%char || (c2 =? swap_case c1)%char) && differ_only_in_case s1' s2'
  | _, _ => false
  end.

(** ** [Array.prototype.sort(compareFn)]

    The language fixes the result, not the algorithm: the elements in an
    order consistent with [compareFn], equal ones in their original order
    (the sort is stable).  For a consistent comparator that result is
    unique ([sort_unique] below), and a stable insertion sort computes it.
    The array is sorted in place and returned; callers here thread the
    array explicitly. *)
Section Sort.
Context {A : Type} (compareFn : A -> A -> Q).

(** [x] goes after [y] exactly when [compareFn x y > 0]. *)
Definition after (x y : A) : bool := negb (Qle_bool (compareFn x y) 0).

Fixpoint insert_sorted (x : A) (l : list A) : list A :=
  match l with
  | [] => [x]
  | y :: l' => if after x y then y :: insert_sorted x l' else x :: l
  end.

Fixpoint sort (l : list A) : list A :=
  match l with
  | [] => []
  | x :: l' => insert_sorted x (sort l')
  end.

End Sort.

End JS.

(* ===================================================================== *)
(** * Effects shared by the two components *)
(* ===================================================================== *)

(** Notifications ([useToast]). *)
Module Toast.

Inductive Status : Type := success | error.

(** The options object passed to [toast]. *)
Record Options : Type := {
  title : string;
  description : option string;
  status : Status;
  duration : Z;
  isClosable : bool
}.

End Toast.

(** What a handler does besides updating the view, in program order:
    [toast] shows a transient notification, [request] is a network call
    (the [mutationFn] of a mutation, run by [mutate]), and
    [invalidateQueries] marks a cached query stale, which makes the query
    library fetch it again. *)
Inductive Effect (Request QueryKey : Type) : Type :=
| toast (t : Toast.Options)
| request (r : Request)
| invalidateQueries (k : QueryKey).
Arguments toast {Request QueryKey} t.
Arguments request {Request QueryKey} r.
Arguments invalidateQueries {Request QueryKey} k.

Definition is_request {R K : Type} (e : Effect R K) : bool :=
  match e with request _ => true | _ => false end.

Definition is_invalidation {R K : Type} (e : Effect R K) : bool :=
  match e with invalidateQueries _ => true | _ => false end.

(** The network calls among the effects of a handler: the requests it
    sends itself and the refetches its invalidations set off. *)
Definition network_calls {R K : Type} (es : list (Effect R K)) : list (Effect R K) :=
  List.filter (fun e => is_request e || is_invalidation e) es.

(** A handler over a view [V]. *)
Definition Handler (V R K : Type) : Type := V -> V * list (Effect R K).

(** Nothing happens. *)
Definition skip {V R K : Type} : Handler V R K := fun v => (v, []).

(** One effect, the view untouched. *)
Definition fire {V R K : Type} (e : Effect R K) : Handler V R K := fun v => (v, [e]).

(** A state setter. *)
Definition set {V R K : Type} (f : V -> V) : Handler V R K := fun v => (f v, []).

(** Statements in sequence. *)
Definition seq {V R K : Type} (h1 h2 : Handler V R K) : Handler V R K :=
  fun v =>
    let '(v1, e1) := h1 v in
    let '(v2, e2) := h2 v1 in
    (v2, e1 ++ e2).

Declare Scope handler_scope.
Delimit Scope handler_scope with handler.
Notation "h1 ;; h2" := (seq h1 h2)
  (at level 100, h2 at level 200, right associativity) : handler_scope.

(** Handlers run one after the other, from a list of events. *)
Fixpoint run {V R K Ev : Type} (step : Ev -> Handler V R K) (evs : list Ev) : Handler V R K :=
  match evs with
  | [] => skip
  | ev :: evs' => seq (step ev) (run step evs')
  end.

(* ===================================================================== *)
(** * DriverDashboard.tsx *)
(* ===================================================================== *)

Module DriverDashboard.

Record RideUser : Type := { name : string }.

(** [interface Ride]. *)
Record Ride : Type := {
  id : Z;
  status : string;
  pickup_location : string;
  destination_location : string;
  user : RideUser;
  scheduled_time : string
}.

(** The component's state: the three [useState] cells, the disclosure
    flag of the PIN modal ([useDisclosure]) and the data of the
    ['driverRides'] query. *)
Record View : Type := {
  offerPrices : gmap Z string;
  selectedRideId : option Z;
  pin : string;
  isOpen : bool;
  rides : option (list Ride)
}.

(** Bodies of the two POST requests. *)
Inductive Request : Type :=
| POST_offer (price : JS.number) (ride_id : Z)
| POST_ride_validation (ride_id : Z) (pin : string).

Inductive QueryKey : Type := driverRides.

Definition Eff : Type := Effect Request QueryKey.
Definition Act : Type := Handler View Request QueryKey.

(** Setters. *)
Definition setOfferPrices (m : gmap Z string) : Act :=
  set (fun v => {| offerPrices := m; selectedRideId := selectedRideId v;
                   pin := pin v; isOpen := isOpen v; rides := rides v |}).

Definition setSelectedRideId (r : option Z) : Act :=
  set (fun v => {| offerPrices := offerPrices v; selectedRideId := r;
                   pin := pin v; isOpen := isOpen v; rides := rides v |}).

Definition setPin (p : string) : Act :=
  set (fun v => {| offerPrices := offerPrices v; selectedRideId := selectedRideId v;
                   pin := p; isOpen := isOpen v; rides := rides v |}).

Definition setIsOpen (b : bool) : Act :=
  set (fun v => {| offerPrices := offerPrices v; selectedRideId := selectedRideId v;
                   pin := pin v; isOpen := b; rides := rides v |}).

Definition setRides (l : list Ride) : Act :=
  set (fun v => {| offerPrices := offerPrices v; selectedRideId := selectedRideId v;
                   pin := pin v; isOpen := isOpen v; rides := Some l |}).

(** [useDisclosure]. *)
Definition onOpen : Act := setIsOpen true.
Definition onClose : Act := setIsOpen false.

Local Open Scope handler_scope.

(** ** createOfferMutation (lines 61-84) *)
Definition createOfferMutation_mutate (price : JS.number) (ride_id : Z) : Act :=
  fire (request (POST_offer price ride_id)).

Definition createOfferMutation_onSuccess : Act :=
  fire (invalidateQueries driverRides) ;;
  fire (toast {| Toast.title := "Offer sent successfully"; Toast.description := None;
                 Toast.status := Toast.success; Toast.duration := 3000; Toast.isClosable := true |}).

Definition createOfferMutation_onError : Act :=
  fire (toast {| Toast.title := "Failed to send offer"; Toast.description := Some "Please try again"%string;
                 Toast.status := Toast.error; Toast.duration := 3000; Toast.isClosable := true |}).

(** ** validatePinMutation (lines 86-120) *)
Record ValidationResponse : Type := { validation : bool }.

Definition validatePinMutation_mutate (ride_id : Z) (p : string) : Act :=
  fire (request (POST_ride_validation ride_id p)).

Definition validatePinMutation_onSuccess (data : ValidationResponse) : Act :=
  if validation data then
    fire (toast {| Toast.title := "PIN validated successfully"; Toast.description := None;
                   Toast.status := Toast.success; Toast.duration := 3000; Toast.isClosable := true |}) ;;
    onClose ;;
    fire (invalidateQueries driverRides)
  else
    fire (toast {| Toast.title := "Invalid PIN"; Toast.description := None;
                   Toast.status := Toast.error; Toast.duration := 3000; Toast.isClosable := true |}).

Definition validatePinMutation_onError : Act :=
  fire (toast {| Toast.title := "Error validating PIN"; Toast.description := None;
                 Toast.status := Toast.error; Toast.duration := 3000; Toast.isClosable := true |}).

(** ** handleSendOffer (lines 122-136) *)
Definition handleSendOffer (rideId : Z) : Act := fun v =>
  let price := JS.parseFloat (offerPrices v !! rideId) in
  if JS.isNaN price || JS.le price JS.zero then
    fire (toast {| Toast.title := "Invalid price"; Toast.description := Some "Please enter a valid price"%string;
                   Toast.status := Toast.error; Toast.duration := 3000; Toast.isClosable := true |}) v
  else
    (createOfferMutation_mutate price rideId ;;
     setOfferPrices (<[rideId := ""%string]> (offerPrices v))) v.

(** ** handlePinValidation (lines 138-142) *)
Definition handlePinValidation (rideId : Z) : Act :=
  setSelectedRideId (Some rideId) ;;
  setPin "" ;;
  onOpen.

(** ** handlePinSubmit (lines 144-148) *)
Definition handlePinSubmit : Act := fun v =>
  if JS.truthy (selectedRideId v) then
    match selectedRideId v with
    | Some rideId => validatePinMutation_mutate rideId (pin v) v
    | None => skip v
    end
  else skip v.

(** ** What the user and the network can do to the dashboard. *)
Inductive Event : Type :=
| PriceChanged (rideId : Z) (value : string)      (* onChange of a price input, line 186 *)
| SendOfferClicked (rideId : Z)                   (* line 189 *)
| ValidatePinClicked (rideId : Z)                 (* line 192 *)
| PinChanged (value : string)                     (* line 211 *)
| SubmitClicked                                   (* line 215 *)
| ModalClosed                                     (* lines 202, 206, 218 *)
| CreateOfferSucceeded
| CreateOfferFailed
| ValidatePinSucceeded (data : ValidationResponse)
| ValidatePinFailed
| RidesFetched (l : list Ride).                   (* the query delivers, every 5 s *)

Definition step (ev : Event) : Act :=
  match ev with
  | PriceChanged rideId value => fun v => setOfferPrices (<[rideId := value]> (offerPrices v)) v
  | SendOfferClicked rideId => handleSendOffer rideId
  | ValidatePinClicked rideId => handlePinValidation rideId
  | PinChanged value => setPin value
  | SubmitClicked => handlePinSubmit
  | ModalClosed => onClose
  | CreateOfferSucceeded => createOfferMutation_onSuccess
  | CreateOfferFailed => createOfferMutation_onError
  | ValidatePinSucceeded data => validatePinMutation_onSuccess data
  | ValidatePinFailed => validatePinMutation_onError
  | RidesFetched l => setRides l
  end.

(** ** The status-dependent action of a ride card (lines 181-195) *)
Inductive Action : Type :=
| PriceInput (value : string) (rideId : Z)   (* the input and its Send Offer button *)
| ValidatePinButton (rideId : Z)
| RideCompleted
| NoAction.                                  (* null *)

(** [offerPrices[ride.id] || '']. *)
Definition priceValue (m : gmap Z string) (rideId : Z) : string :=
  match m !! rideId with
  | Some s => s
  | None => ""
  end.

Definition rideAction (m : gmap Z string) (ride : Ride) : Action :=
  if String.eqb (JS.toUpperCase (status ride)) "REQUESTED" then
    PriceInput (priceValue m (id ride)) (id ride)
  else if String.eqb (JS.toUpperCase (status ride)) "ACCEPTED" then
    ValidatePinButton (id ride)
  else if String.eqb (JS.toUpperCase (status ride)) "COMPLETED" then
    RideCompleted
  else NoAction.

(** The state the component mounts with: [useState({})], [useState(null)],
    [useState("")], the modal closed, no data yet. *)
Definition initial : View :=
  {| offerPrices := ∅; selectedRideId := None; pin := ""; isOpen := false; rides := None |}.

(** The ride [r] with another status text. *)
Definition with_status (r : Ride) (s : string) : Ride :=
  {| id := id r; status := s; pickup_location := pickup_location r;
     destination_location := destination_location r; user := user r;
     scheduled_time := scheduled_time r |}.

(** A ride as the API lists one. *)
Definition sample_ride : Ride :=
  {| id := 7; status := "requested"; pickup_location := "Plaza de Armas";
     destination_location := "Aeropuerto"; user := {| name := "Ana" |};
     scheduled_time := "2024-06-01T10:00:00.000Z" |}.

(** What kind of action it is, the ride it is attached to left out. *)
Inductive ActionKind : Type := price_input | validate_pin_button | completed_text | nothing.

Definition kind_of (a : Action) : ActionKind :=
  match a with
  | PriceInput _ _ => price_input
  | ValidatePinButton _ => validate_pin_button
  | RideCompleted => completed_text
  | NoAction => nothing
  end.

(** ** Vocabulary for statements about offers *)

(** The events whose handlers call [setOfferPrices]. *)
Definition writes_prices (ev : Event) : bool :=
  match ev with
  | PriceChanged _ _ | SendOfferClicked _ => true
  | _ => false
  end.

(** The guard of [handleSendOffer] (line 124) on the buffer of a ride. *)
Definition rejected (v : View) (rideId : Z) : bool :=
  let price := JS.parseFloat (offerPrices v !! rideId) in
  JS.isNaN price || JS.le price JS.zero.

End DriverDashboard.

(* ===================================================================== *)
(** * OffersModal.tsx *)
(* ===================================================================== *)

Module OffersModal.

Module Driver.
Record t : Type := { id : Z; name : string; rating : Q }.
End Driver.

Module Vehicle.
Record t : Type := { brand : string; model : string; year : Z; color : string }.
End Vehicle.

(** [interface Offer]. *)
Record Offer : Type := {
  id : Z;
  ride_id : Z;
  driver : Driver.t;
  vehicle : Vehicle.t;
  price : Q;
  selected : bool
}.

(** ["price" | "rating"]. *)
Inductive SortKey : Type := by_price | by_rating.

(** The component's state: the two [useState] cells, the [isOpen] prop
    and the data of the [["offers", rideId]] query ([None] while the
    query has delivered nothing: [offers] is [undefined]). *)
Record View : Type := {
  sortBy : SortKey;
  pin : string;
  isOpen : bool;
  offers : option (list Offer)
}.

Inductive Request : Type :=
| PUT_offer_select_offer (ride_id offer_id : Z)
| DELETE_ride (rideId : Z).

Inductive QueryKey : Type :=
| offersOf (rideId : Z)      (* ["offers", rideId] *)
| userRides.                 (* ["userRides"] *)

Definition Eff : Type := Effect Request QueryKey.
Definition Act : Type := Handler View Request QueryKey.

Definition setSortBy (k : SortKey) : Act :=
  set (fun v => {| sortBy := k; pin := pin v; isOpen := isOpen v; offers := offers v |}).

Definition setIsOpen (b : bool) : Act :=
  set (fun v => {| sortBy := sortBy v; pin := pin v; isOpen := b; offers := offers v |}).

(** Writes the query data, as the query library does when a fetch
    returns and as [setQueryData] does. *)
Definition setOffers (d : option (list Offer)) : Act :=
  set (fun v => {| sortBy := sortBy v; pin := pin v; isOpen := isOpen v; offers := d |}).

(** Modelled from the spec: the [onClose] prop.  The parent component that
    passes it is not among the sources; the spec says that calling it
    closes the modal, so it clears the [isOpen] prop the parent hands
    back. *)
Definition onClose : Act := setIsOpen false.

Local Open Scope handler_scope.

(** ** acceptOfferMutation (lines 74-105) *)
Module AcceptResponse.
Record t : Type := { pin : string }.
End AcceptResponse.

Definition acceptOfferMutation_mutate (rideId offerId : Z) : Act :=
  fire (request (PUT_offer_select_offer rideId offerId)).

Definition acceptOfferMutation_onSuccess (rideId : Z) (data : AcceptResponse.t) : Act :=
  fire (invalidateQueries (offersOf rideId)) ;;
  fire (invalidateQueries userRides) ;;
  fire (toast {| Toast.title := "Offer accepted";
                 Toast.description :=
                   Some ("Your PIN is " ++ AcceptResponse.pin data ++ ". Please remember it for your ride.")%string;
                 Toast.status := Toast.success; Toast.duration := 5000; Toast.isClosable := true |}) ;;
  onClose.

Definition acceptOfferMutation_onError : Act :=
  fire (toast {| Toast.title := "Error accepting offer"; Toast.description := None;
                 Toast.status := Toast.error; Toast.duration := 3000; Toast.isClosable := true |}).

(** ** cancelRideMutation (lines 107-131) *)
Definition cancelRideMutation_mutate (rideId : Z) : Act :=
  fire (request (DELETE_ride rideId)).

Definition cancelRideMutation_onSuccess : Act :=
  fire (invalidateQueries userRides) ;;
  fire (toast {| Toast.title := "Ride cancelled successfully"; Toast.description := None;
                 Toast.status := Toast.success; Toast.duration := 3000; Toast.isClosable := true |}) ;;
  onClose.

Definition cancelRideMutation_onError : Act :=
  fire (toast {| Toast.title := "Error cancelling ride"; Toast.description := None;
                 Toast.status := Toast.error; Toast.duration := 3000; Toast.isClosable := true |}).

(** ** sortedOffers (lines 133-135)

    The comparator passed to [sort].  Its result is used for its sign
    only, and the difference of two finite binary64 numbers has the sign
    of their exact difference, so the rational difference stands for
    it. *)
Definition compareFn (k : SortKey) (a b : Offer) : Q :=
  match k with
  | by_price => price a - price b
  | by_rating => Driver.rating (driver b) - Driver.rating (driver a)
  end.

(** [offers?.sort(...)], evaluated at each render: [undefined] when the
    query has no data; otherwise the cached array itself is sorted in
    place and is the value of the expression, so the view leaves the
    render with the sorted array as its query data. *)
Definition sortedOffers (v : View) : View * option (list Offer) :=
  match offers v with
  | None => (v, None)
  | Some l =>
      let l' := JS.sort (compareFn (sortBy v)) l in
      (fst (setOffers (Some l') v), Some l')
  end.

(** ** handleAccept, handleDecline, handleCancelRide (lines 137-151) *)
Definition handleAccept (rideId offerId : Z) : Act :=
  acceptOfferMutation_mutate rideId offerId.

Definition handleDecline (offerId : Z) : Act := fun v =>
  setOffers
    (Some match offers v with
          | Some oldData => List.filter (fun offer => negb (id offer =? offerId)) oldData
          | None => []
          end) v.

Definition handleCancelRide (rideId : Z) : Act :=
  cancelRideMutation_mutate rideId.

(** ** What the user and the network can do to the modal showing the
    offers of ride [rideId]. *)
Inductive Event : Type :=
| SortBySelected (k : SortKey)                 (* line 162 *)
| AcceptClicked (offerId : Z)                  (* line 187 *)
| DeclineClicked (offerId : Z)                 (* line 193 *)
| CancelRideClicked                            (* line 206 *)
| CloseClicked                                 (* lines 154, 209 *)
| Rendered                                     (* the component function runs *)
| AcceptSucceeded (data : AcceptResponse.t)
| AcceptFailed
| CancelRideSucceeded
| CancelRideFailed
| OffersFetched (l : list Offer).              (* the query delivers, every 5 s *)

Definition step (rideId : Z) (ev : Event) : Act :=
  match ev with
  | SortBySelected k => setSortBy k
  | AcceptClicked offerId => handleAccept rideId offerId
  | DeclineClicked offerId => handleDecline offerId
  | CancelRideClicked => handleCancelRide rideId
  | CloseClicked => onClose
  | Rendered => fun v => (fst (sortedOffers v), [])
  | AcceptSucceeded data => acceptOfferMutation_onSuccess rideId data
  | AcceptFailed => acceptOfferMutation_onError
  | CancelRideSucceeded => cancelRideMutation_onSuccess
  | CancelRideFailed => cancelRideMutation_onError
  | OffersFetched l => setOffers (Some l)
  end.

(** ** The modal together with the server it talks to

    The server is outside the repository.  All that is fixed here is how
    the client can reach it: a request of a handler is delivered to it,
    and whatever it does with one is the parameter [serve]; the periodic
    refetch copies the server's offers of the ride into the query data. *)
Record World : Type := {
  server_offers : list Offer;
  view : View
}.

Section Server.
Variable serve : Request -> list Offer -> list Offer.

Definition deliver (es : list Eff) (s : list Offer) : list Offer :=
  fold_left (fun s e => match e with request r => serve r s | _ => s end) es s.

Definition client (h : Act) (w : World) : World :=
  let '(v, es) := h (view w) in
  {| server_offers := deliver es (server_offers w); view := v |}.

Definition poll (w : World) : World :=
  {| server_offers := server_offers w;
     view := fst (setOffers (Some (server_offers w)) (view w)) |}.

End Server.

(** The state the component mounts with when the parent shows it:
    [useState("price")], [useState("")], no data yet. *)
Definition initial : View :=
  {| sortBy := by_price; pin := ""; isOpen := true; offers := None |}.

(** ** Vocabulary for statements about the rendered list *)

Definition ascending_price (l : list Offer) : Prop :=
  StronglySorted (fun a b => (price a <= price b)%Q) l.

Definition descending_rating (l : list Offer) : Prop :=
  StronglySorted (fun a b => (Driver.rating (driver b) <= Driver.rating (driver a))%Q) l.

Definition rating_of (o : Offer) : Q := Driver.rating (driver o).

(** The offers of [l] whose [key] equals [q], in the order of [l]. *)
Definition tied (key : Offer -> Q) (q : Q) (l : list Offer) : list Offer :=
  List.filter (fun o => Qeq_bool (key o) q) l.

(** The key the comparator of [k] compares, and the order it asks for. *)
Definition key_of (k : SortKey) (o : Offer) : Q :=
  match k with
  | by_price => price o
  | by_rating => rating_of o
  end.

Definition ordered_by (k : SortKey) (l : list Offer) : Prop :=
  match k with
  | by_price => ascending_price l
  | by_rating => descending_rating l
  end.

(** The events of rendering once under each key of [ks], in turn. *)
Definition renders (ks : list SortKey) : list Event :=
  flat_map (fun k => [SortBySelected k; Rendered]) ks.

(** The array those renders leave in the cache, from the array [l]. *)
Definition cache_after (ks : list SortKey) (l : list Offer) : list Offer :=
  fold_left (fun a k => JS.sort (compareFn k) a) ks l.

(** What the modal of ride [rideId] lists when the query has delivered
    [fetched], the component has since rendered under the keys [ks], the
    user selects the key [k], and the component renders. *)
Definition rendered_after (rideId : Z) (fetched : list Offer) (ks : list SortKey)
    (k : SortKey) (v : View) : option (list Offer) :=
  snd (sortedOffers
         (fst (run (step rideId) (OffersFetched fetched :: renders ks ++ [SortBySelected k]) v))).

(** The offer [o] with its id, price and driver rating replaced. *)
Definition offer_with (o : Offer) (i : Z) (p r : Q) : Offer :=
  {| id := i; ride_id := ride_id o;
     driver := {| Driver.id := Driver.id (driver o); Driver.name := Driver.name (driver o);
                  Driver.rating := r |};
     vehicle := vehicle o; price := p; selected := selected o |}.

(** An offer as the API lists one. *)
Definition sample_offer : Offer :=
  {| id := 1; ride_id := 7;
     driver := {| Driver.id := 3; Driver.name := "Luis"; Driver.rating := 4.5 |};
     vehicle := {| Vehicle.brand := "Toyota"; Vehicle.model := "Yaris";
                   Vehicle.year := 2019; Vehicle.color := "white" |};
     price := 10; selected := false |}.

(** ** The body of the modal (lines 167-203)

    [isLoading] and [isError] are read off the query; [sortedOffers] has
    been evaluated before the markup is built (line 133), whatever the
    two flags say. *)
Inductive Body : Type :=
| LoadingOffers                      (* "Loading offers..." *)
| ErrorLoadingOffers                 (* "Error loading offers" *)
| OfferCards (l : list Offer)        (* one box per offer *)
| NoOffersYet.                       (* "No offers available yet." *)

Definition body (isLoading isError : bool) (v : View) : View * Body :=
  let '(v', sorted) := sortedOffers v in
  (v',
   if isLoading then LoadingOffers
   else if isError then ErrorLoadingOffers
   else match sorted with
        | Some (o :: l) => OfferCards (o :: l)
        | _ => NoOffersYet
        end).

(** The events that write fetched data into the cache. *)
Definition fetches (ev : Event) : bool :=
  match ev with
  | OffersFetched _ => true
  | _ => false
  end.

End OffersModal.

(* ===================================================================== *)
(** * Facts about the built-ins *)
(* ===================================================================== *)

(** ** The sort: a permutation, ordered, and stable *)
Section SortFacts.
Context {A : Type} (cmp : A -> A -> Q).

Lemma insert_sorted_perm (x : A) (l : list A) :
  Permutation (x :: l) (JS.insert_sorted cmp x l).
Proof.
  induction l as [|y l IH]; simpl.
  - apply Permutation_refl.
  - destruct (JS.after cmp x y).
    + apply Permutation_trans with (y :: x :: l).
      * apply perm_swap.
      * apply perm_skip, IH.
    + apply Permutation_refl.
Qed.

Lemma sort_perm (l : list A) : Permutation l (JS.sort cmp l).
Proof.
  induction l as [|x l IH]; simpl.
  - apply perm_nil.
  - apply Permutation_trans with (x :: JS.sort cmp l).
    + apply perm_skip, IH.
    + apply insert_sorted_perm.
Qed.

(** The order [R] the comparator stands for: [R y x] when [x] is sent
    after [y], [R x y] when it is not. *)
Section Ordered.
Variable R : A -> A -> Prop.
Hypothesis R_after : forall x y, JS.after cmp x y = true -> R y x.
Hypothesis R_not_after : forall x y, JS.after cmp x y = false -> R x y.
Hypothesis R_trans : forall x y z, R x y -> R y z -> R x z.

Lemma insert_sorted_ordered (x : A) (l : list A) :
  StronglySorted R l -> StronglySorted R (JS.insert_sorted cmp x l).
Proof using R_after R_not_after R_trans.
  induction 1 as [|y l Hl IH Hy]; simpl.
  - constructor; [constructor | constructor].
  - destruct (JS.after cmp x y) eqn:E.
    + constructor; [exact IH |].
      apply (Permutation_Forall (insert_sorted_perm x l)).
      constructor; [apply R_after, E | exact Hy].
    + constructor; [constructor; assumption |].
      constructor; [apply R_not_after, E |].
      eapply List.Forall_impl; [| exact Hy].
      intros z Hz. apply R_trans with y; [apply R_not_after, E | exact Hz].
Qed.

Lemma sort_ordered (l : list A) : StronglySorted R (JS.sort cmp l).
Proof using R_after R_not_after R_trans.
  induction l as [|x l IH]; simpl.
  - constructor.
  - apply insert_sorted_ordered, IH.
Qed.

(** An array already in order is left as it is. *)
Lemma sort_ordered_id (l : list A) :
  (forall x y, R x y -> JS.after cmp x y = false) ->
  StronglySorted R l -> JS.sort cmp l = l.
Proof.
  intros Hno. induction 1 as [|x l Hl IH Hx]; simpl; [reflexivity |].
  rewrite IH. destruct l as [|y l]; simpl; [reflexivity |].
  rewrite Hno; [reflexivity |]. inversion Hx; assumption.
Qed.

End Ordered.

(** Stability: elements that the comparator never sends after one another
    (a class [f] of ties) come out in the order they went in. *)
Section Stable.
Variable f : A -> bool.
Hypothesis f_ties : forall x y, f x = true -> f y = true -> JS.after cmp x y = false.

Lemma insert_sorted_ties (x : A) (l : list A) :
  List.filter f (JS.insert_sorted cmp x l) = List.filter f (x :: l).
Proof using f_ties.
  induction l as [|y l IH]; [reflexivity |].
  cbn [JS.insert_sorted]. destruct (JS.after cmp x y) eqn:E; [| reflexivity].
  cbn [List.filter] in *. rewrite IH.
  destruct (f x) eqn:Fx; [| reflexivity].
  destruct (f y) eqn:Fy; [| reflexivity].
  rewrite (f_ties x y Fx Fy) in E. discriminate.
Qed.

Lemma sort_ties (l : list A) :
  List.filter f (JS.sort cmp l) = List.filter f l.
Proof using f_ties.
  induction l as [|x l IH]; [reflexivity |].
  cbn [JS.sort]. rewrite insert_sorted_ties. cbn [List.filter]. rewrite IH. reflexivity.
Qed.

End Stable.

(** The contract determines the result.  For a comparator that is a
    consistent order, any arrangement that is in order and keeps every
    class of ties in its original order is the one [JS.sort] computes, so
    the algorithm an engine uses cannot be told from this one. *)
Section Unique.
Hypothesis after_asym : forall x y, JS.after cmp x y = true -> JS.after cmp y x = false.
Hypothesis precedes_trans :
  forall x y z, JS.after cmp x y = false -> JS.after cmp y z = false ->
                JS.after cmp x z = false.

Let precedes (x y : A) : Prop := JS.after cmp x y = false.
Let tie (a x : A) : bool := negb (JS.after cmp x a) && negb (JS.after cmp a x).

Lemma after_irrefl (x : A) : JS.after cmp x x = false.
Proof using after_asym.
  destruct (JS.after cmp x x) eqn:E; [| reflexivity].
  rewrite (after_asym x x E) in E. discriminate.
Qed.

Lemma tie_refl (x : A) : tie x x = true.
Proof using after_asym. unfold tie. rewrite after_irrefl. reflexivity. Qed.

Lemma tie_sym (x y : A) : tie x y = tie y x.
Proof. unfold tie. apply andb_comm. Qed.

Lemma in_filter_head (a x : A) (l l' : list A) :
  List.filter (tie a) l = x :: l' -> In x l.
Proof.
  intros Hf. assert (Hin : In x (List.filter (tie a) l)) by (rewrite Hf; left; reflexivity).
  apply filter_In in Hin. tauto.
Qed.

Lemma ordered_ties_unique (l1 l2 : list A) :
  StronglySorted precedes l1 -> StronglySorted precedes l2 ->
  (forall a, List.filter (tie a) l1 = List.filter (tie a) l2) ->
  l1 = l2.
Proof using after_asym.
  intros H1. revert l2. induction H1 as [|x t1 Ht1 IH Hx]; intros l2 H2 Hties.
  - destruct l2 as [|y t2]; [reflexivity |].
    specialize (Hties y). cbn in Hties. rewrite tie_refl in Hties. discriminate.
  - destruct H2 as [|y t2 Ht2 Hy].
    { specialize (Hties x). cbn in Hties. rewrite tie_refl in Hties. discriminate. }
    assert (Hxy : x = y).
    { pose proof (Hties x) as Htx. cbn in Htx. rewrite tie_refl in Htx.
      destruct (tie x y) eqn:Exy; [congruence |].
      pose proof (Hties y) as Hty. cbn in Hty.
      rewrite tie_refl, (tie_sym y x), Exy in Hty.
      symmetry in Htx. apply in_filter_head in Htx. apply in_filter_head in Hty.
      rewrite List.Forall_forall in Hx, Hy.
      specialize (Hx y Hty). specialize (Hy x Htx).
      unfold precedes in Hx, Hy. unfold tie in Exy. rewrite Hx, Hy in Exy. discriminate. }
    subst y. f_equal. apply IH; [exact Ht2 |].
    intros a. specialize (Hties a). cbn in Hties.
    destruct (tie a x); congruence.
Qed.

Lemma sort_unique (l out : list A) :
  StronglySorted precedes out ->
  (forall a, List.filter (tie a) out = List.filter (tie a) l) ->
  out = JS.sort cmp l.
Proof using after_asym precedes_trans.
  intros Hord Hties. apply ordered_ties_unique.
  - exact Hord.
  - apply sort_ordered.
    + intros x y. apply after_asym.
    + intros x y E. exact E.
    + intros x y z. apply precedes_trans.
  - intros a. rewrite Hties. symmetry. apply sort_ties.
    intros x y Hx Hy. unfold tie in Hx, Hy.
    apply andb_true_iff in Hx as [Hxa _]. apply andb_true_iff in Hy as [_ Hay].
    apply negb_true_iff in Hxa, Hay. apply (precedes_trans x a y); assumption.
Qed.

End Unique.

End SortFacts.

(* ===================================================================== *)
(** * Handlers in sequence *)
(* ===================================================================== *)

Section RunFacts.
Context {V R K Ev : Type} (step : Ev -> Handler V R K).

Lemma run_cons_fst (ev : Ev) (evs : list Ev) (v : V) :
  fst (run step (ev :: evs) v) = fst (run step evs (fst (step ev v))).
Proof.
  cbn [run]. unfold seq.
  destruct (step ev v) as [v1 e1]. cbn [fst].
  destruct (run step evs v1) as [v2 e2]. reflexivity.
Qed.

Lemma run_app_fst (evs1 evs2 : list Ev) (v : V) :
  fst (run step (evs1 ++ evs2) v) = fst (run step evs2 (fst (run step evs1 v))).
Proof.
  revert v. induction evs1 as [|ev evs1 IH]; intros v.
  - reflexivity.
  - rewrite <- app_comm_cons, !run_cons_fst. apply IH.
Qed.

Lemma run_app_snd (evs1 evs2 : list Ev) (v : V) :
  snd (run step (evs1 ++ evs2) v) =
    snd (run step evs1 v) ++ snd (run step evs2 (fst (run step evs1 v))).
Proof.
  revert v. induction evs1 as [|ev evs1 IH]; intros v.
  - reflexivity.
  - rewrite <- app_comm_cons.
    change (run step (ev :: evs1 ++ evs2) v) with (seq (step ev) (run step (evs1 ++ evs2)) v).
    change (run step (ev :: evs1) v) with (seq (step ev) (run step evs1) v).
    unfold seq. destruct (step ev v) as [v1 e1]. specialize (IH v1).
    destruct (run step (evs1 ++ evs2) v1) as [v2 e2].
    destruct (run step evs1 v1) as [v3 e3]. cbn [fst snd] in *.
    rewrite IH. apply app_assoc.
Qed.

End RunFacts.

(* ===================================================================== *)
(** * OffersModal: the sorted list *)
(* ===================================================================== *)

Section SortedOffers.
Import OffersModal.

Lemma Qle_bool_false (p q : Q) : Qle_bool p q = false -> (q <= p)%Q.
Proof.
  intros E. destruct (Qlt_le_dec q p) as [Hlt | Hle].
  - apply Qlt_le_weak, Hlt.
  - apply Qle_bool_iff in Hle. congruence.
Qed.

(** The comparator sends [x] after [y] exactly when the price of [x] is
    above that of [y] (by price), when its rating is below (by rating). *)
Lemma after_by_price (x y : Offer) :
  JS.after (compareFn by_price) x y = negb (Qle_bool (price x) (price y)).
Proof.
  unfold JS.after, compareFn. f_equal.
  destruct (Qle_bool (price x) (price y)) eqn:E.
  - apply Qle_bool_iff in E. apply Qle_bool_iff. lra.
  - apply not_true_is_false. intros E'. apply Qle_bool_iff in E'.
    apply not_true_iff_false in E. apply E, Qle_bool_iff. lra.
Qed.

Lemma after_by_rating (x y : Offer) :
  JS.after (compareFn by_rating) x y = negb (Qle_bool (rating_of y) (rating_of x)).
Proof.
  unfold JS.after, compareFn, rating_of. f_equal.
  destruct (Qle_bool (Driver.rating (driver y)) (Driver.rating (driver x))) eqn:E.
  - apply Qle_bool_iff in E. apply Qle_bool_iff. lra.
  - apply not_true_is_false. intros E'. apply Qle_bool_iff in E'.
    apply not_true_iff_false in E. apply E, Qle_bool_iff. lra.
Qed.

Lemma sort_ordered_by (k : SortKey) (l : list Offer) :
  ordered_by k (JS.sort (compareFn k) l).
Proof.
  destruct k; cbn [ordered_by]; apply sort_ordered.
  - intros x y. rewrite after_by_price, negb_true_iff. apply Qle_bool_false.
  - intros x y. rewrite after_by_price, negb_false_iff. apply Qle_bool_iff.
  - intros x y z. apply Qle_trans.
  - intros x y. rewrite after_by_rating, negb_true_iff. apply Qle_bool_false.
  - intros x y. rewrite after_by_rating, negb_false_iff. apply Qle_bool_iff.
  - intros x y z Hxy Hyz. apply Qle_trans with (Driver.rating (driver y)); assumption.
Qed.

Lemma sort_stable_by (k : SortKey) (q : Q) (l : list Offer) :
  tied (key_of k) q (JS.sort (compareFn k) l) = tied (key_of k) q l.
Proof.
  apply sort_ties. intros x y Hx Hy. apply Qeq_bool_iff in Hx, Hy.
  destruct k; cbn [key_of] in Hx, Hy.
  - rewrite after_by_price, negb_false_iff. apply Qle_bool_iff. lra.
  - rewrite after_by_rating, negb_false_iff. apply Qle_bool_iff. lra.
Qed.

(** Both comparators are consistent orders, so the contract of
    [Array.prototype.sort] leaves one possible result. *)
Lemma compareFn_asym (k : SortKey) (x y : Offer) :
  JS.after (compareFn k) x y = true -> JS.after (compareFn k) y x = false.
Proof.
  destruct k.
  - rewrite !after_by_price, negb_true_iff, negb_false_iff.
    intros E. apply Qle_bool_iff, Qle_bool_false, E.
  - rewrite !after_by_rating, negb_true_iff, negb_false_iff.
    intros E. apply Qle_bool_iff, Qle_bool_false, E.
Qed.

Lemma compareFn_trans (k : SortKey) (x y z : Offer) :
  JS.after (compareFn k) x y = false -> JS.after (compareFn k) y z = false ->
  JS.after (compareFn k) x z = false.
Proof.
  destruct k.
  - rewrite !after_by_price, !negb_false_iff, !Qle_bool_iff. apply Qle_trans.
  - rewrite !after_by_rating, !negb_false_iff, !Qle_bool_iff.
    intros Hxy Hyz. apply Qle_trans with (rating_of y); assumption.
Qed.

Lemma sort_compareFn_determined (k : SortKey) (l out : list Offer) :
  StronglySorted (fun x y => JS.after (compareFn k) x y = false) out ->
  (forall a,
      List.filter (fun x => negb (JS.after (compareFn k) x a) &&
                            negb (JS.after (compareFn k) a x)) out =
      List.filter (fun x => negb (JS.after (compareFn k) x a) &&
                            negb (JS.after (compareFn k) a x)) l) ->
  out = JS.sort (compareFn k) l.
Proof.
  apply sort_unique.
  - apply compareFn_asym.
  - apply compareFn_trans.
Qed.

(** Rendering again under the same key moves nothing. *)
Lemma sort_again (k : SortKey) (l : list Offer) :
  JS.sort (compareFn k) (JS.sort (compareFn k) l) = JS.sort (compareFn k) l.
Proof.
  pose proof (sort_ordered_by k l) as Hord. destruct k; cbn [ordered_by] in Hord.
  - eapply sort_ordered_id; [| exact Hord].
    intros x y Hxy. rewrite after_by_price, negb_false_iff. apply Qle_bool_iff, Hxy.
  - eapply sort_ordered_id; [| exact Hord].
    intros x y Hxy. rewrite after_by_rating, negb_false_iff. apply Qle_bool_iff, Hxy.
Qed.

Lemma cache_after_perm (ks : list SortKey) (l : list Offer) :
  Permutation l (cache_after ks l).
Proof.
  revert l. induction ks as [|k ks IH]; intros l; cbn.
  - apply Permutation_refl.
  - apply Permutation_trans with (JS.sort (compareFn k) l); [apply sort_perm | apply IH].
Qed.

Lemma cache_after_same_key (k : SortKey) (ks : list SortKey) (l : list Offer) :
  List.Forall (eq k) ks ->
  JS.sort (compareFn k) (cache_after ks l) = JS.sort (compareFn k) l.
Proof.
  intros Hks. revert l. induction Hks as [|k' ks <- _ IH]; intros l; cbn.
  - reflexivity.
  - rewrite IH. apply sort_again.
Qed.

(** The render sorts the cached array where it lies. *)
Lemma sortedOffers_in_place (v : View) (l : list Offer) :
  offers v = Some l ->
  sortedOffers v =
    ({| sortBy := sortBy v; pin := pin v; isOpen := isOpen v;
        offers := Some (JS.sort (compareFn (sortBy v)) l) |},
     Some (JS.sort (compareFn (sortBy v)) l)).
Proof. unfold sortedOffers. intros ->. reflexivity. Qed.

Lemma offers_after_renders (rideId : Z) (ks : list SortKey) (v : View) (l : list Offer) :
  offers v = Some l ->
  offers (fst (run (step rideId) (renders ks) v)) = Some (cache_after ks l).
Proof.
  revert v l. induction ks as [|k ks IH]; intros v l Hl.
  - exact Hl.
  - change (renders (k :: ks)) with (SortBySelected k :: Rendered :: renders ks).
    rewrite !run_cons_fst. cbn [cache_after fold_left]. apply IH.
    cbn [step fst]. rewrite (sortedOffers_in_place _ l) by exact Hl. reflexivity.
Qed.

Lemma rendered_after_eq (rideId : Z) (fetched : list Offer) (ks : list SortKey)
    (k : SortKey) (v : View) :
  rendered_after rideId fetched ks k v =
    Some (JS.sort (compareFn k) (cache_after ks fetched)).
Proof.
  unfold rendered_after. rewrite run_cons_fst, run_app_fst.
  set (v2 := fst (run (step rideId) (renders ks) (fst (step rideId (OffersFetched fetched) v)))).
  assert (Hv2 : offers v2 = Some (cache_after ks fetched))
    by (apply offers_after_renders; reflexivity).
  rewrite (sortedOffers_in_place _ (cache_after ks fetched)) by exact Hv2.
  reflexivity.
Qed.

(** Two offers with different keys come out the same way whichever way
    round the cache holds them. *)
Lemma rendered_pair (rideId : Z) (x y : Offer) (ks : list SortKey) (k : SortKey)
    (v : View) (out : list Offer) :
  JS.sort (compareFn k) [x; y] = out ->
  JS.sort (compareFn k) [y; x] = out ->
  rendered_after rideId [x; y] ks k v = Some out.
Proof.
  intros Hxy Hyx. rewrite rendered_after_eq.
  destruct (Permutation_length_2_inv (cache_after_perm ks [x; y])) as [-> | ->];
    f_equal; assumption.
Qed.

(** C1, as the code has it.  Whatever list the offers query has
    delivered and under whatever keys the modal has rendered it since,
    with sort-by-price selected the modal lists a reordering of the
    delivered list in ascending order of price, with sort-by-rating
    selected a reordering in descending order of driver rating.  Offers
    with the same key stand in the order they have in the cached array
    the sort receives; that is their order in the delivered list as long
    as the list has been rendered under no other key since it arrived.
    On the offers (id 1, price 10, rating 4.5), (id 2, price 8, rating
    4.9) both keys list the ids 2, 1; on (id 1, price 5, rating 3),
    (id 2, price 9, rating 5) the price key lists 1, 2 and the rating key
    2, 1. *)
Theorem sortedOffers_ordered_and_stable :
  forall (rideId : Z) (v : View) (fetched : list Offer) (ks : list SortKey) (k : SortKey),
    (exists out,
        rendered_after rideId fetched ks k v = Some out /\
        ordered_by k out /\
        Permutation fetched out /\
        (forall q, tied (key_of k) q out = tied (key_of k) q (cache_after ks fetched)) /\
        (List.Forall (eq k) ks ->
         forall q, tied (key_of k) q out = tied (key_of k) q fetched)) /\
    (forall a b,
        let l := [offer_with a 1 10 4.5; offer_with b 2 8 4.9] in
        option_map (List.map id) (rendered_after rideId l ks by_price v) = Some [2; 1] /\
        option_map (List.map id) (rendered_after rideId l ks by_rating v) = Some [2; 1]) /\
    (forall a b,
        let l := [offer_with a 1 5 3; offer_with b 2 9 5] in
        option_map (List.map id) (rendered_after rideId l ks by_price v) = Some [1; 2] /\
        option_map (List.map id) (rendered_after rideId l ks by_rating v) = Some [2; 1]).
Proof.
  intros rideId v fetched ks k. split; [| split].
  - exists (JS.sort (compareFn k) (cache_after ks fetched)).
    split; [apply rendered_after_eq |].
    split; [apply sort_ordered_by |].
    split; [apply Permutation_trans with (cache_after ks fetched);
            [apply cache_after_perm | apply sort_perm] |].
    split; [intros q; apply sort_stable_by |].
    intros Hks q. rewrite (cache_after_same_key k ks fetched Hks). apply sort_stable_by.
  - intros a b l. unfold l. split.
    + rewrite (rendered_pair _ _ _ _ _ _ [offer_with b 2 8 4.9; offer_with a 1 10 4.5])
        by reflexivity.
      reflexivity.
    + rewrite (rendered_pair _ _ _ _ _ _ [offer_with b 2 8 4.9; offer_with a 1 10 4.5])
        by reflexivity.
      reflexivity.
  - intros a b l. unfold l. split.
    + rewrite (rendered_pair _ _ _ _ _ _ [offer_with a 1 5 3; offer_with b 2 9 5])
        by reflexivity.
      reflexivity.
    + rewrite (rendered_pair _ _ _ _ _ _ [offer_with b 2 9 5; offer_with a 1 5 3])
        by reflexivity.
      reflexivity.
Qed.

Lemma sortedOffers_ordered_and_stable_witness :
  let l := [sample_offer; offer_with sample_offer 2 10 4.9] in
  exists out,
    rendered_after 7 l [by_price; by_price] by_price initial = Some out /\
    List.map id (tied price 10 out) = [1; 2].
Proof.
  intros l.
  destruct (sortedOffers_ordered_and_stable 7 initial l [by_price; by_price] by_price)
    as ((out & Hout & _ & _ & _ & Hfetched) & _).
  exists out. split; [exact Hout |].
  change (tied price 10 out) with (tied (key_of by_price) 10 out).
  rewrite Hfetched; [reflexivity |].
  repeat constructor.
Defined.

(** C1, as the spec words it, does not hold once the key is changed: the
    query delivers offer 1 (price 10) before offer 2 (price 8), both rated
    4.5; the modal renders under its initial key, by price, which leaves
    the cached array as 2, 1; the user selects sort-by-rating; the two
    offers tie, and the modal lists 2, 1, not the delivered order 1, 2. *)
Lemma rating_ties_follow_previous_render :
  let l := [offer_with sample_offer 1 10 4.5; offer_with sample_offer 2 8 4.5] in
  let v := fst (run (step 7) [OffersFetched l; Rendered; SortBySelected by_rating] initial) in
  option_map (List.map id) (snd (sortedOffers v)) = Some [2; 1] /\
  List.map id (tied rating_of 4.5 l) = [1; 2] /\
  option_map (fun out => List.map id (tied rating_of 4.5 out)) (snd (sortedOffers v))
    = Some [2; 1].
Proof.
  intros l v. split; [| split]; vm_compute; reflexivity.
Qed.

End SortedOffers.

(* ===================================================================== *)
(** * DriverDashboard: sending an offer *)
(* ===================================================================== *)

Section SendOffer.
Import DriverDashboard.

Lemma handleSendOffer_rejected (rideId : Z) (v : View) :
  rejected v rideId = true ->
  handleSendOffer rideId v =
    (v, [toast {| Toast.title := "Invalid price";
                  Toast.description := Some "Please enter a valid price"%string;
                  Toast.status := Toast.error; Toast.duration := 3000;
                  Toast.isClosable := true |}]).
Proof.
  unfold rejected, handleSendOffer. intros ->. reflexivity.
Qed.

Lemma handleSendOffer_accepted (rideId : Z) (v : View) :
  rejected v rideId = false ->
  handleSendOffer rideId v =
    (fst (setOfferPrices (<[rideId := ""%string]> (offerPrices v)) v),
     [request (POST_offer (JS.parseFloat (offerPrices v !! rideId)) rideId)]).
Proof.
  unfold rejected, handleSendOffer. intros ->. reflexivity.
Qed.

(** C2.  Whatever the ride and whatever its price buffer holds, if the
    buffered text parses to NaN or to a number that is at most zero, then
    [handleSendOffer] sends nothing over the network: its only effect is
    one error notification, "Invalid price", and the view is untouched. *)
Theorem handleSendOffer_invalid_price_stays_local :
  forall (rideId : Z) (v : View),
    let price := JS.parseFloat (offerPrices v !! rideId) in
    JS.isNaN price = true \/ JS.le price JS.zero = true ->
    exists t,
      handleSendOffer rideId v = (v, [toast t]) /\
      Toast.status t = Toast.error /\
      Toast.title t = "Invalid price"%string /\
      network_calls (snd (handleSendOffer rideId v)) = [].
Proof.
  intros rideId v price Hbad.
  assert (Hrej : rejected v rideId = true).
  { unfold rejected. fold price. apply orb_true_iff. exact Hbad. }
  rewrite (handleSendOffer_rejected _ _ Hrej).
  eexists. repeat split.
Qed.

Lemma handleSendOffer_invalid_price_stays_local_witness :
  exists t,
    handleSendOffer 7 (fst (run step [PriceChanged 7 "-3 soles"] initial)) =
      (fst (run step [PriceChanged 7 "-3 soles"] initial), [toast t]) /\
    Toast.status t = Toast.error /\
    Toast.title t = "Invalid price"%string /\
    network_calls
      (snd (handleSendOffer 7 (fst (run step [PriceChanged 7 "-3 soles"] initial)))) = [].
Proof.
  apply (handleSendOffer_invalid_price_stays_local 7
           (fst (run step [PriceChanged 7 "-3 soles"] initial))).
  right. vm_compute. reflexivity.
Defined.

End SendOffer.

Section OfferCreated.
Import DriverDashboard.

(** Only typing a price and sending an offer write the price buffers. *)
Lemma step_keeps_prices (ev : Event) (v : View) :
  writes_prices ev = false -> offerPrices (fst (step ev v)) = offerPrices v.
Proof.
  destruct ev as [| | | | | | | | data | |]; cbn; try discriminate; intros _;
    try reflexivity.
  - unfold handlePinSubmit.
    destruct (JS.truthy (selectedRideId v)); [destruct (selectedRideId v) |]; reflexivity.
  - destruct data as [[|]]; reflexivity.
Qed.

Lemma run_keeps_prices (evs : list Event) (v : View) :
  forallb (fun ev => negb (writes_prices ev)) evs = true ->
  offerPrices (fst (run step evs v)) = offerPrices v.
Proof.
  revert v. induction evs as [|ev evs IH]; intros v Hevs; [reflexivity |].
  cbn [forallb] in Hevs. apply andb_true_iff in Hevs as [Hev Hevs].
  apply negb_true_iff in Hev.
  rewrite run_cons_fst, (IH _ Hevs). apply step_keeps_prices, Hev.
Qed.

(** C7.  For every ride whose buffered price passes the guard, sending
    the offer and then the success of the request leave that ride's price
    buffer empty and every other ride's buffer as it was, and invalidate
    the ['driverRides'] query, which makes the ride list be fetched again.
    The buffer is cleared by [handleSendOffer] as it issues the request
    (line 135); the success callback adds the invalidation and a success
    notification and leaves the view as it finds it.  The same holds of
    the buffers and the invalidation when other events come in while the
    request is in flight, as long as none of them types a price or sends
    an offer. *)
Theorem offer_created_clears_buffer_and_refetches :
  forall (rideId : Z) (v : View),
    rejected v rideId = false ->
    let price := JS.parseFloat (offerPrices v !! rideId) in
    let sent := handleSendOffer rideId v in
    let done := run step [SendOfferClicked rideId; CreateOfferSucceeded] v in
    snd sent = [request (POST_offer price rideId)] /\
    offerPrices (fst done) !! rideId = Some ""%string /\
    (forall other, other <> rideId ->
        offerPrices (fst done) !! other = offerPrices v !! other) /\
    (selectedRideId (fst done), pin (fst done), isOpen (fst done), rides (fst done)) =
      (selectedRideId v, pin v, isOpen v, rides v) /\
    (exists t, snd done =
                 [request (POST_offer price rideId); invalidateQueries driverRides; toast t] /\
               Toast.status t = Toast.success) /\
    (forall v1, fst (createOfferMutation_onSuccess v1) = v1) /\
    (forall mid,
        forallb (fun ev => negb (writes_prices ev)) mid = true ->
        let late := run step (SendOfferClicked rideId :: mid ++ [CreateOfferSucceeded]) v in
        offerPrices (fst late) = <[rideId := ""%string]> (offerPrices v) /\
        In (invalidateQueries driverRides) (snd late)).
Proof.
  intros rideId v Hok price sent done.
  assert (Hsent : sent = (fst (setOfferPrices (<[rideId := ""%string]> (offerPrices v)) v),
                          [request (POST_offer price rideId)])).
  { apply handleSendOffer_accepted, Hok. }
  assert (Hdone : done =
            (fst (setOfferPrices (<[rideId := ""%string]> (offerPrices v)) v),
             [request (POST_offer price rideId); invalidateQueries driverRides;
              toast {| Toast.title := "Offer sent successfully"; Toast.description := None;
                       Toast.status := Toast.success; Toast.duration := 3000;
                       Toast.isClosable := true |}])).
  { unfold done, run, seq. change (step (SendOfferClicked rideId) v) with sent.
    rewrite Hsent. reflexivity. }
  rewrite Hsent, Hdone. cbn [fst snd setOfferPrices set offerPrices selectedRideId pin isOpen rides].
  split; [reflexivity |].
  split; [apply lookup_insert_eq |].
  split; [intros other Hne; apply lookup_insert_ne; congruence |].
  split; [reflexivity |].
  split; [eexists; split; reflexivity |].
  split; [intros v1; reflexivity |].
  intros mid Hmid. split.
  - rewrite run_cons_fst, run_app_fst.
    rewrite (run_keeps_prices [CreateOfferSucceeded]) by reflexivity.
    rewrite (run_keeps_prices mid _ Hmid).
    change (step (SendOfferClicked rideId) v) with sent. rewrite Hsent. reflexivity.
  - change (SendOfferClicked rideId :: mid ++ [CreateOfferSucceeded])
      with ((SendOfferClicked rideId :: mid) ++ [CreateOfferSucceeded]).
    rewrite run_app_snd. apply in_or_app. right. left. reflexivity.
Qed.

Lemma offer_created_clears_buffer_and_refetches_witness :
  let v := fst (run step [PriceChanged 7 "12.5"; PriceChanged 8 "30"] initial) in
  let done := run step [SendOfferClicked 7; CreateOfferSucceeded] v in
  snd (handleSendOffer 7 v) = [request (POST_offer (JS.Fin (25 # 2)) 7)] /\
  offerPrices (fst done) !! 7 = Some ""%string /\
  offerPrices (fst done) !! 8 = Some "30"%string /\
  List.In (invalidateQueries driverRides) (snd done).
Proof.
  intros v done.
  assert (Hok : rejected v 7 = false) by (vm_compute; reflexivity).
  destruct (offer_created_clears_buffer_and_refetches 7 v Hok)
    as (Hsent & Hmine & Hothers & _ & (t & Hdone & _) & _ & _).
  split; [| split; [| split]].
  - rewrite Hsent. vm_compute. reflexivity.
  - exact Hmine.
  - unfold done. rewrite (Hothers 8) by discriminate. reflexivity.
  - unfold done. rewrite Hdone. right. left. reflexivity.
Defined.

End OfferCreated.

(* ===================================================================== *)
(** * DriverDashboard: validating the PIN *)
(* ===================================================================== *)

Section PinValidation.
Import DriverDashboard.

(** C4.  For every response of the PIN validation: when its flag is
    false the view, the open modal included, stays as it is, one error
    notification is shown and nothing is invalidated; when the flag is
    true the modal is closed and the ['driverRides'] query is invalidated,
    which makes the ride list be fetched again. *)
Theorem validatePin_response_decides_modal :
  forall (data : ValidationResponse) (v : View),
    let after := validatePinMutation_onSuccess data v in
    if validation data then
      isOpen (fst after) = false /\
      (offerPrices (fst after), selectedRideId (fst after), pin (fst after), rides (fst after)) =
        (offerPrices v, selectedRideId v, pin v, rides v) /\
      network_calls (snd after) = [invalidateQueries driverRides] /\
      exists t, snd after = [toast t; invalidateQueries driverRides] /\
                Toast.status t = Toast.success
    else
      fst after = v /\
      isOpen (fst after) = isOpen v /\
      network_calls (snd after) = [] /\
      exists t, snd after = [toast t] /\ Toast.status t = Toast.error /\
                Toast.title t = "Invalid PIN"%string.
Proof.
  intros [[|]] v; cbn.
  - repeat split. eexists. split; reflexivity.
  - repeat split. eexists. repeat split.
Qed.

(** C9.  Whatever PIN text is entered, when no ride is selected
    ([selectedRideId] is [null]) pressing Submit sends no request, has no
    other effect and leaves the view as it is. *)
Theorem handlePinSubmit_without_ride_is_noop :
  forall (v : View),
    selectedRideId v = None ->
    handlePinSubmit v = (v, []).
Proof.
  intros v Hnone. unfold handlePinSubmit. rewrite Hnone. reflexivity.
Qed.

Lemma handlePinSubmit_without_ride_is_noop_witness :
  handlePinSubmit (fst (run step [PinChanged "4821"] initial)) =
    (fst (run step [PinChanged "4821"] initial), []).
Proof.
  apply (handlePinSubmit_without_ride_is_noop (fst (run step [PinChanged "4821"] initial))).
  reflexivity.
Defined.

(** With a ride selected, Submit sends its id and the entered PIN. *)
Lemma handlePinSubmit_with_ride (rideId : Z) (v : View) :
  selectedRideId v = Some rideId -> rideId <> 0 ->
  handlePinSubmit v = (v, [request (POST_ride_validation rideId (pin v))]).
Proof.
  intros Hsel Hnz. unfold handlePinSubmit. rewrite Hsel. cbn.
  destruct (Z.eqb_spec rideId 0); [contradiction | reflexivity].
Qed.

End PinValidation.

(* ===================================================================== *)
(** * DriverDashboard: the action of a ride card *)
(* ===================================================================== *)

Section RideAction.
Import DriverDashboard.

Lemma upper_char_swap_case (c : ascii) :
  JS.upper_char (JS.swap_case c) = JS.upper_char c.
Proof.
  destruct c as [[|] [|] [|] [|] [|] [|] [|] [|]]; vm_compute; reflexivity.
Qed.

Lemma toUpperCase_ignores_case (s1 s2 : string) :
  JS.differ_only_in_case s1 s2 = true ->
  JS.toUpperCase s1 = JS.toUpperCase s2.
Proof.
  revert s2. induction s1 as [|c1 s1 IH]; intros [|c2 s2]; cbn; try discriminate.
  - reflexivity.
  - intros Hd. apply andb_true_iff in Hd as [Hc Hs].
    rewrite (IH _ Hs). f_equal.
    apply orb_true_iff in Hc as [Hc | Hc]; apply Ascii.eqb_eq in Hc; subst c2.
    + reflexivity.
    + symmetry. apply upper_char_swap_case.
Qed.

(** Upper-casing twice is upper-casing once. *)
Lemma toUpperCase_idempotent (s : string) :
  JS.toUpperCase (JS.toUpperCase s) = JS.toUpperCase s.
Proof.
  induction s as [|c s IH]; cbn; [reflexivity |]. rewrite IH. f_equal.
  destruct c as [[|] [|] [|] [|] [|] [|] [|] [|]]; vm_compute; reflexivity.
Qed.

(** C8.  The action a ride card shows depends on the status text only up
    to the case of its letters: two rides whose statuses differ only in
    case show the same kind of action (price input, Validate PIN button,
    completed text, or nothing), and the very same action when they are
    the same ride otherwise. *)
Theorem rideAction_ignores_status_case :
  forall (m : gmap Z string) (r1 r2 : Ride),
    JS.differ_only_in_case (status r1) (status r2) = true ->
    kind_of (rideAction m r1) = kind_of (rideAction m r2) /\
    (id r1 = id r2 -> rideAction m r1 = rideAction m r2).
Proof.
  intros m r1 r2 Hcase. apply toUpperCase_ignores_case in Hcase.
  unfold rideAction. rewrite Hcase. split.
  - repeat (destruct (String.eqb _ _); [reflexivity |]). reflexivity.
  - intros ->. reflexivity.
Qed.

Lemma rideAction_ignores_status_case_witness :
  kind_of (rideAction ∅ sample_ride) =
    kind_of (rideAction ∅ (with_status sample_ride "ReQuEsTeD")) /\
  rideAction ∅ sample_ride = rideAction ∅ (with_status sample_ride "ReQuEsTeD").
Proof.
  destruct (rideAction_ignores_status_case ∅ sample_ride
              (with_status sample_ride "ReQuEsTeD") eq_refl) as [Hkind Hsame].
  split; [exact Hkind | apply Hsame; reflexivity].
Defined.

(** The three statuses the dashboard knows, in any case. *)
Lemma rideAction_by_status (m : gmap Z string) (r : Ride) :
  (JS.differ_only_in_case "REQUESTED" (status r) = true ->
     rideAction m r = PriceInput (priceValue m (id r)) (id r)) /\
  (JS.differ_only_in_case "ACCEPTED" (status r) = true ->
     rideAction m r = ValidatePinButton (id r)) /\
  (JS.differ_only_in_case "COMPLETED" (status r) = true ->
     rideAction m r = RideCompleted).
Proof.
  unfold rideAction.
  repeat split; intros Hs; apply toUpperCase_ignores_case in Hs;
    rewrite <- Hs; reflexivity.
Qed.

End RideAction.

(* ===================================================================== *)
(** * OffersModal: declining an offer *)
(* ===================================================================== *)

Section Decline.
Import OffersModal.

Lemma filter_twice {A : Type} (f : A -> bool) (l : list A) :
  List.filter f (List.filter f l) = List.filter f l.
Proof.
  induction l as [|x l IH]; cbn; [reflexivity |].
  destruct (f x) eqn:E; cbn; [rewrite E, IH; reflexivity | exact IH].
Qed.

Lemma filter_all {A : Type} (f : A -> bool) (l : list A) :
  (forall x, In x l -> f x = true) -> List.filter f l = l.
Proof.
  induction l as [|x l IH]; cbn; intros Hall; [reflexivity |].
  rewrite (Hall x) by (left; reflexivity). f_equal. apply IH.
  intros y Hy. apply Hall. right. exact Hy.
Qed.

(** [handleDecline] written out: the query data becomes the old list
    without the offers that carry the id, and nothing else happens. *)
Lemma handleDecline_eq (offerId : Z) (v : View) :
  handleDecline offerId v =
    ({| sortBy := sortBy v; pin := pin v; isOpen := isOpen v;
        offers := Some (List.filter (fun offer => negb (id offer =? offerId))
                          (match offers v with Some l => l | None => [] end)) |},
     []).
Proof. unfold handleDecline. destruct (offers v); reflexivity. Qed.

(** C5.  Declining an offer, whatever its id, writes the cached offer
    list without the offers of that id (the others stay, in their order)
    and touches nothing else in the view; it has no effect at all, so no
    network call is made, and however the server treats requests its
    offers stay as they were: the next poll puts the server's list,
    the declined offer included if the server still has it, back into the
    cache. *)
Theorem handleDecline_local_only :
  forall (serve : Request -> list Offer -> list Offer) (offerId : Z) (w : World),
    let old := match offers (view w) with Some l => l | None => [] end in
    let w' := client serve (handleDecline offerId) w in
    snd (handleDecline offerId (view w)) = [] /\
    server_offers w' = server_offers w /\
    offers (view w') = Some (List.filter (fun o => negb (id o =? offerId)) old) /\
    (forall o, In o (List.filter (fun o => negb (id o =? offerId)) old) <->
               In o old /\ id o <> offerId) /\
    (sortBy (view w'), pin (view w'), isOpen (view w')) =
      (sortBy (view w), pin (view w), isOpen (view w)) /\
    offers (view (poll w')) = Some (server_offers w).
Proof.
  intros serve offerId w old w'.
  unfold w', client, poll. rewrite handleDecline_eq. cbn. fold old.
  split; [reflexivity |]. split; [reflexivity |]. split; [reflexivity |].
  split; [| split; reflexivity].
  intros o. rewrite filter_In, negb_true_iff, Z.eqb_neq. reflexivity.
Qed.

(** C10.  Declining is idempotent on the cached list: declining an id a
    second time gives the view (and the absence of effects) of declining
    it once; declining an id that no cached offer carries leaves the view
    as it is; and with nothing cached the cache becomes the empty list. *)
Theorem handleDecline_idempotent :
  forall (offerId : Z) (v : View),
    handleDecline offerId (fst (handleDecline offerId v)) = handleDecline offerId v /\
    (forall l, offers v = Some l -> (forall o, In o l -> id o <> offerId) ->
               handleDecline offerId v = (v, [])) /\
    (offers v = None -> offers (fst (handleDecline offerId v)) = Some []).
Proof.
  intros offerId v. split; [| split].
  - rewrite !handleDecline_eq. cbn. rewrite filter_twice. reflexivity.
  - intros l Hl Habsent. rewrite handleDecline_eq, Hl.
    rewrite filter_all.
    + destruct v; cbn in *; subst; reflexivity.
    + intros o Ho. apply negb_true_iff, Z.eqb_neq, Habsent, Ho.
  - intros Hnone. rewrite handleDecline_eq, Hnone. reflexivity.
Qed.

Lemma handleDecline_idempotent_witness :
  let l := [sample_offer; offer_with sample_offer 2 8 4.9] in
  let v := fst (setOffers (Some l) initial) in
  handleDecline 1 (fst (handleDecline 1 v)) = handleDecline 1 v /\
  handleDecline 3 v = (v, []) /\
  offers (fst (handleDecline 1 initial)) = Some [].
Proof.
  intros l v.
  destruct (handleDecline_idempotent 1 v) as (Htwice & _ & _).
  destruct (handleDecline_idempotent 3 v) as (_ & Habsent & _).
  destruct (handleDecline_idempotent 1 initial) as (_ & _ & Hnone).
  split; [exact Htwice | split].
  - apply (Habsent l); [reflexivity |].
    intros o [<- | [<- | []]]; discriminate.
  - apply Hnone. reflexivity.
Defined.

End Decline.

(* ===================================================================== *)
(** * OffersModal: cancelling the ride *)
(* ===================================================================== *)

Section CancelRide.
Import OffersModal.

(** C6.  For every ride and whatever the offers query holds (nothing, the
    empty list, any list), cancelling sends the delete request for that
    ride, and when the request resolves the modal is closed; the resulting
    view is the same function of the earlier one for every content of the
    offer list, which is left as it was, and the ["userRides"] query is
    invalidated.  (Resolves: the request succeeds and [onSuccess] runs.) *)
Theorem cancelRide_resolved_closes_modal :
  forall (rideId : Z) (cached : option (list Offer)) (v : View),
    let before := fst (setOffers cached v) in
    let cancelled := run (step rideId) [CancelRideClicked; CancelRideSucceeded] before in
    snd (handleCancelRide rideId before) = [request (DELETE_ride rideId)] /\
    isOpen (fst (cancelRideMutation_onSuccess before)) = false /\
    fst cancelled = {| sortBy := sortBy v; pin := pin v; isOpen := false; offers := cached |} /\
    exists t, snd cancelled =
                [request (DELETE_ride rideId); invalidateQueries userRides; toast t] /\
              Toast.status t = Toast.success.
Proof.
  intros rideId cached v before cancelled.
  split; [reflexivity |]. split; [reflexivity |]. split; [reflexivity |].
  eexists. split; reflexivity.
Qed.

(** When the delete request fails the modal is not closed. *)
Lemma cancelRide_rejected_keeps_modal (rideId : Z) (v : View) :
  fst (run (step rideId) [CancelRideClicked; CancelRideFailed] v) = v.
Proof. reflexivity. Qed.

End CancelRide.

(* ===================================================================== *)
(** * Both components: a request that fails *)
(* ===================================================================== *)

Section FailedMutation.

(** The four [onError] callbacks: the view stays, one error notification
    is shown, nothing else happens. *)
Lemma onError_only_notifies :
  (forall v, exists t, DriverDashboard.createOfferMutation_onError v = (v, [toast t]) /\
                       Toast.status t = Toast.error) /\
  (forall v, exists t, DriverDashboard.validatePinMutation_onError v = (v, [toast t]) /\
                       Toast.status t = Toast.error) /\
  (forall v, exists t, OffersModal.acceptOfferMutation_onError v = (v, [toast t]) /\
                       Toast.status t = Toast.error) /\
  (forall v, exists t, OffersModal.cancelRideMutation_onError v = (v, [toast t]) /\
                       Toast.status t = Toast.error).
Proof.
  repeat split; intros v; eexists; split; reflexivity.
Qed.

(** Submit never changes the view, with or without a selected ride. *)
Lemma handlePinSubmit_keeps_view (v : DriverDashboard.View) :
  fst (DriverDashboard.handlePinSubmit v) = v.
Proof.
  unfold DriverDashboard.handlePinSubmit.
  destruct (JS.truthy (DriverDashboard.selectedRideId v));
    [destruct (DriverDashboard.selectedRideId v) |]; reflexivity.
Qed.

(** C3, as the code has it.  For each of the four mutations the failure
    callback leaves the view exactly as it finds it and shows one error
    notification, nothing more.  Issuing a PIN validation, an offer
    acceptance or a ride cancellation changes no view state either, so
    after the failure the view is what it was before the request was
    issued.  Issuing an offer creation has already emptied that ride's
    price buffer (line 135): after the failure the view is what it was
    before the request except for that one buffer, which is empty. *)
Theorem failed_mutation_changes_nothing_more :
  forall (vd : DriverDashboard.View) (vo : OffersModal.View) (rideId offerId : Z),
    (exists t, DriverDashboard.createOfferMutation_onError vd = (vd, [toast t]) /\
               Toast.status t = Toast.error) /\
    (exists t, DriverDashboard.validatePinMutation_onError vd = (vd, [toast t]) /\
               Toast.status t = Toast.error) /\
    (exists t, OffersModal.acceptOfferMutation_onError vo = (vo, [toast t]) /\
               Toast.status t = Toast.error) /\
    (exists t, OffersModal.cancelRideMutation_onError vo = (vo, [toast t]) /\
               Toast.status t = Toast.error) /\
    fst (run DriverDashboard.step
           [DriverDashboard.SubmitClicked; DriverDashboard.ValidatePinFailed] vd) = vd /\
    fst (run (OffersModal.step rideId)
           [OffersModal.AcceptClicked offerId; OffersModal.AcceptFailed] vo) = vo /\
    fst (run (OffersModal.step rideId)
           [OffersModal.CancelRideClicked; OffersModal.CancelRideFailed] vo) = vo /\
    (DriverDashboard.rejected vd rideId = false ->
     fst (run DriverDashboard.step
            [DriverDashboard.SendOfferClicked rideId; DriverDashboard.CreateOfferFailed] vd) =
       {| DriverDashboard.offerPrices := <[rideId := ""%string]> (DriverDashboard.offerPrices vd);
          DriverDashboard.selectedRideId := DriverDashboard.selectedRideId vd;
          DriverDashboard.pin := DriverDashboard.pin vd;
          DriverDashboard.isOpen := DriverDashboard.isOpen vd;
          DriverDashboard.rides := DriverDashboard.rides vd |}).
Proof.
  intros vd vo rideId offerId.
  destruct onError_only_notifies as (H1 & H2 & H3 & H4).
  split; [apply H1 |]. split; [apply H2 |]. split; [apply H3 |]. split; [apply H4 |].
  split.
  { pose proof (handlePinSubmit_keeps_view vd) as Hkeep.
    unfold run, seq. cbn [DriverDashboard.step].
    destruct (DriverDashboard.handlePinSubmit vd) as [v1 e1]. exact Hkeep. }
  split; [reflexivity |]. split; [reflexivity |].
  intros Hok. unfold run, seq. cbn [DriverDashboard.step].
  rewrite (handleSendOffer_accepted _ _ Hok). reflexivity.
Qed.

Lemma failed_mutation_changes_nothing_more_witness :
  let v := fst (run DriverDashboard.step [DriverDashboard.PriceChanged 7 "12.5"]
                  DriverDashboard.initial) in
  DriverDashboard.offerPrices
    (fst (run DriverDashboard.step
            [DriverDashboard.SendOfferClicked 7; DriverDashboard.CreateOfferFailed] v)) =
    <[7 := ""%string]> (DriverDashboard.offerPrices v).
Proof.
  intros v.
  destruct (failed_mutation_changes_nothing_more v OffersModal.initial 7 1)
    as (_ & _ & _ & _ & _ & _ & _ & Hsent).
  rewrite Hsent; [reflexivity |]. vm_compute. reflexivity.
Defined.

(** C3, as the spec words it, does not hold for offer creation: a driver
    types 12.5 for ride 7 and sends the offer; the request fails; the
    buffer of ride 7, "12.5" before the request was issued, is empty. *)
Lemma failed_offer_creation_loses_buffer :
  let v := fst (run DriverDashboard.step [DriverDashboard.PriceChanged 7 "12.5"]
                  DriverDashboard.initial) in
  let failed := run DriverDashboard.step
                  [DriverDashboard.SendOfferClicked 7; DriverDashboard.CreateOfferFailed] v in
  (exists t, snd failed = [request (DriverDashboard.POST_offer (JS.Fin (25 # 2)) 7); toast t] /\
             Toast.status t = Toast.error) /\
  DriverDashboard.offerPrices v !! 7 = Some "12.5"%string /\
  DriverDashboard.offerPrices (fst failed) !! 7 = Some ""%string /\
  fst failed <> v.
Proof.
  intros v failed.
  split; [eexists; split; vm_compute; reflexivity |].
  split; [vm_compute; reflexivity |].
  split; [vm_compute; reflexivity |].
  intros Heq.
  assert (Hl : DriverDashboard.offerPrices (fst failed) !! 7
               = DriverDashboard.offerPrices v !! 7) by (rewrite Heq; reflexivity).
  vm_compute in Hl. discriminate.
Qed.

End FailedMutation.

(* ===================================================================== *)
(** * Traces: where an effect comes from, and invariants *)
(* ===================================================================== *)

Section TraceFacts.
Context {V R K Ev : Type} (step : Ev -> Handler V R K).

Lemma run_cons_snd (ev : Ev) (evs : list Ev) (v : V) :
  snd (run step (ev :: evs) v) =
    snd (step ev v) ++ snd (run step evs (fst (step ev v))).
Proof.
  change (run step (ev :: evs) v) with (seq (step ev) (run step evs) v).
  unfold seq. destruct (step ev v) as [v1 e1]. cbn [fst snd].
  destruct (run step evs v1) as [v2 e2]. reflexivity.
Qed.

(** An effect of a trace is an effect of one of its events, fired from the
    view the events before it have left. *)
Lemma run_effect_origin (e : Effect R K) (evs : list Ev) (v : V) :
  In e (snd (run step evs v)) ->
  exists pre ev post,
    evs = pre ++ ev :: post /\ In e (snd (step ev (fst (run step pre v)))).
Proof.
  revert v. induction evs as [|ev evs IH]; intros v Hin.
  - destruct Hin.
  - rewrite run_cons_snd in Hin. apply in_app_or in Hin as [Hin | Hin].
    + exists [], ev, evs. split; [reflexivity | exact Hin].
    + destruct (IH _ Hin) as (pre & ev' & post & -> & Hin').
      exists (ev :: pre), ev', post. split; [reflexivity |].
      rewrite run_cons_fst. exact Hin'.
Qed.

(** A property every handler keeps holds after every trace. *)
Lemma run_invariant (P : V -> Prop) (evs : list Ev) (v : V) :
  (forall ev v', P v' -> P (fst (step ev v'))) ->
  P v -> P (fst (run step evs v)).
Proof.
  intros Hstep. revert v. induction evs as [|ev evs IH]; intros v Hv.
  - exact Hv.
  - rewrite run_cons_fst. apply IH, Hstep, Hv.
Qed.

End TraceFacts.

(* ===================================================================== *)
(** * DriverDashboard: what is sent, over whole sessions *)
(* ===================================================================== *)

Section DashboardRequests.
Import DriverDashboard.


Lemma step_validation_request (ev : Event) (v : View) (rid : Z) (p : string) :
  In (request (POST_ride_validation rid p)) (snd (step ev v)) ->
  ev = SubmitClicked /\ selectedRideId v = Some rid /\ rid <> 0 /\ p = pin v.
Proof.
  destruct ev as [r s | r | r | s | | | | | data | | l]; cbn [step].
  - intros [].
  - intros Hin. destruct (rejected v r) eqn:Hrej.
    + rewrite (handleSendOffer_rejected _ _ Hrej) in Hin.
      destruct Hin as [Hin | []]. discriminate.
    + rewrite (handleSendOffer_accepted _ _ Hrej) in Hin.
      destruct Hin as [Hin | []]. discriminate.
  - intros [].
  - intros [].
  - unfold handlePinSubmit. destruct (selectedRideId v) as [r |] eqn:Hsel; cbn.
    + destruct (Z.eqb_spec r 0) as [-> | Hnz]; cbn; intros Hin.
      * destruct Hin.
      * destruct Hin as [Hin | []]. injection Hin as <- <-. auto.
    + intros [].
  - intros [].
  - cbn. intros Hin. repeat destruct Hin as [Hin | Hin]; try discriminate; destruct Hin.
  - cbn. intros Hin. repeat destruct Hin as [Hin | Hin]; try discriminate; destruct Hin.
  - destruct data as [[|]]; cbn; intros Hin;
      repeat destruct Hin as [Hin | Hin]; try discriminate; destruct Hin.
  - cbn. intros Hin. repeat destruct Hin as [Hin | Hin]; try discriminate; destruct Hin.
  - intros [].
Qed.



End DashboardRequests.

Section DashboardPin.
Import DriverDashboard.

Lemma step_selectedRideId (ev : Event) (v : View) :
  selectedRideId (fst (step ev v)) =
    match ev with
    | ValidatePinClicked r => Some r
    | _ => selectedRideId v
    end.
Proof.
  destruct ev as [r s | r | r | s | | | | | data | | l]; cbn [step]; try reflexivity.
  - destruct (rejected v r) eqn:Hrej.
    + rewrite (handleSendOffer_rejected _ _ Hrej). reflexivity.
    + rewrite (handleSendOffer_accepted _ _ Hrej). reflexivity.
  - rewrite handlePinSubmit_keeps_view. reflexivity.
  - destruct data as [[|]]; reflexivity.
Qed.

Lemma step_pin (ev : Event) (v : View) :
  pin (fst (step ev v)) =
    match ev with
    | ValidatePinClicked _ => ""%string
    | PinChanged s => s
    | _ => pin v
    end.
Proof.
  destruct ev as [r s | r | r | s | | | | | data | | l]; cbn [step]; try reflexivity.
  - destruct (rejected v r) eqn:Hrej.
    + rewrite (handleSendOffer_rejected _ _ Hrej). reflexivity.
    + rewrite (handleSendOffer_accepted _ _ Hrej). reflexivity.
  - rewrite handlePinSubmit_keeps_view. reflexivity.
  - destruct data as [[|]]; reflexivity.
Qed.

Lemma step_isOpen (ev : Event) (v : View) :
  isOpen (fst (step ev v)) =
    match ev with
    | ValidatePinClicked _ => true
    | ModalClosed => false
    | ValidatePinSucceeded data => if validation data then false else isOpen v
    | _ => isOpen v
    end.
Proof.
  destruct ev as [r s | r | r | s | | | | | data | | l]; cbn [step]; try reflexivity.
  - destruct (rejected v r) eqn:Hrej.
    + rewrite (handleSendOffer_rejected _ _ Hrej). reflexivity.
    + rewrite (handleSendOffer_accepted _ _ Hrej). reflexivity.
  - rewrite handlePinSubmit_keeps_view. reflexivity.
  - destruct data as [[|]]; reflexivity.
Qed.

Lemma run_snoc_fst (pre : list Event) (ev : Event) (v : View) :
  fst (run step (pre ++ [ev]) v) = fst (step ev (fst (run step pre v))).
Proof. rewrite run_app_fst, run_cons_fst. reflexivity. Qed.

(** After any session from the mounted dashboard, the ride held for PIN
    entry is one whose Validate PIN button was clicked, and the PIN text
    is empty or one that was typed. *)
Lemma session_pin_state (pre : list Event) :
  let v := fst (run step pre initial) in
  (forall rid, selectedRideId v = Some rid -> In (ValidatePinClicked rid) pre) /\
  (pin v = ""%string \/ In (PinChanged (pin v)) pre).
Proof.
  induction pre as [|ev pre [IHsel IHpin]] using rev_ind; cbn zeta in *.
  - split; [intros rid Hsel; discriminate | left; reflexivity].
  - rewrite run_snoc_fst, step_selectedRideId, step_pin. split.
    + intros rid Hsel. apply in_or_app.
      destruct ev; try (left; apply IHsel, Hsel).
      injection Hsel as ->. right. left. reflexivity.
    + destruct ev; try (destruct IHpin as [Hp | Hp];
                        [left; exact Hp | right; apply in_or_app; left; exact Hp]).
      * left. reflexivity.
      * right. apply in_or_app. right. left. reflexivity.
Qed.

(** X2.  In a session that starts from the mounted dashboard, a PIN
    validation request that goes out was sent by Submit, names a ride
    whose id is not 0 and whose Validate PIN button was clicked, and
    carries a PIN that is empty or was typed into the modal. *)
Theorem pin_requests_name_a_clicked_ride :
  forall (evs : list Event) (rid : Z) (p : string),
    In (request (POST_ride_validation rid p)) (snd (run step evs initial)) ->
    rid <> 0 /\
    In SubmitClicked evs /\
    In (ValidatePinClicked rid) evs /\
    (p = ""%string \/ In (PinChanged p) evs).
Proof.
  intros evs rid p Hin.
  destruct (run_effect_origin step _ _ _ Hin) as (pre & ev & post & -> & Hev).
  apply step_validation_request in Hev as (-> & Hsel & Hnz & ->).
  destruct (session_pin_state pre) as [Hclicked Htyped].
  split; [exact Hnz |].
  split; [apply in_or_app; right; left; reflexivity |].
  split; [apply in_or_app; left; apply Hclicked, Hsel |].
  destruct Htyped as [Hp | Hp]; [left; exact Hp | right; apply in_or_app; left; exact Hp].
Qed.

Lemma pin_requests_name_a_clicked_ride_witness :
  (7 <> 0) /\
  In SubmitClicked [ValidatePinClicked 7; PinChanged "4821"; SubmitClicked] /\
  In (ValidatePinClicked 7) [ValidatePinClicked 7; PinChanged "4821"; SubmitClicked] /\
  ("4821"%string = ""%string \/
   In (PinChanged "4821") [ValidatePinClicked 7; PinChanged "4821"; SubmitClicked]).
Proof.
  apply (pin_requests_name_a_clicked_ride
           [ValidatePinClicked 7; PinChanged "4821"; SubmitClicked] 7 "4821").
  vm_compute. left. reflexivity.
Defined.

(** X3.  In a session that starts from the mounted dashboard the PIN
    modal is open only with a ride held for PIN entry: [selectedRideId]
    is not [null] whenever [isOpen] is true. *)
Theorem open_modal_has_a_ride :
  forall (evs : list Event),
    let v := fst (run step evs initial) in
    isOpen v = true -> exists rid, selectedRideId v = Some rid.
Proof.
  intros evs.
  apply (run_invariant step
           (fun v => isOpen v = true -> exists rid, selectedRideId v = Some rid)).
  - intros ev v Hv. rewrite step_isOpen, step_selectedRideId.
    destruct ev as [r s | r | r | s | | | | | data | | l]; try exact Hv.
    + intros _. exists r. reflexivity.
    + discriminate.
    + destruct (validation data); [discriminate | exact Hv].
  - discriminate.
Qed.

Lemma open_modal_has_a_ride_witness :
  exists rid,
    selectedRideId
      (fst (run step [ValidatePinClicked 7; ModalClosed; ValidatePinClicked 9] initial))
    = Some rid.
Proof.
  apply (open_modal_has_a_ride [ValidatePinClicked 7; ModalClosed; ValidatePinClicked 9]).
  reflexivity.
Defined.

(** X4.  Opening the PIN modal for a ride, typing a PIN and pressing
    Submit, from whatever view: the PIN left over from an earlier entry is
    discarded, the modal is open, and one request goes out with that ride
    and the typed PIN -- unless the ride's id is 0, which [if
    (selectedRideId)] takes for no ride: then nothing is sent.  Without
    typing, the PIN sent is the empty text. *)
Theorem open_type_submit :
  forall (v : View) (rideId : Z) (typed : string),
    run step [ValidatePinClicked rideId; PinChanged typed; SubmitClicked] v =
      ({| offerPrices := offerPrices v; selectedRideId := Some rideId; pin := typed;
          isOpen := true; rides := rides v |},
       if rideId =? 0 then [] else [request (POST_ride_validation rideId typed)]) /\
    snd (run step [ValidatePinClicked rideId; SubmitClicked] v) =
      if rideId =? 0 then [] else [request (POST_ride_validation rideId "")].
Proof.
  intros v rideId typed. split.
  - unfold run, seq. cbn [step handlePinValidation setSelectedRideId setPin onOpen
                          setIsOpen set seq fst snd].
    unfold handlePinValidation, seq, handlePinSubmit. cbn.
    destruct (rideId =? 0); reflexivity.
  - unfold run, seq. unfold step, handlePinValidation, seq, handlePinSubmit. cbn.
    destruct (rideId =? 0); reflexivity.
Qed.

End DashboardPin.

(* ===================================================================== *)
(** * DriverDashboard: the price buffers *)
(* ===================================================================== *)

Section DashboardPrices.
Import DriverDashboard.

Lemma trimStart_blank (s : string) : JS.blank s = true -> JS.trimStart s = ""%string.
Proof.
  induction s as [|c s IH]; cbn; [reflexivity |].
  intros Hb. apply andb_true_iff in Hb as [Hc Hs]. rewrite Hc. apply IH, Hs.
Qed.

Lemma parseFloat_blank (s : string) : JS.blank s = true -> JS.parseFloat (Some s) = JS.NaN.
Proof.
  intros Hb. unfold JS.parseFloat. cbn [JS.ToString].
  rewrite (trimStart_blank _ Hb). reflexivity.
Qed.

Lemma parseFloat_undefined : JS.parseFloat None = JS.NaN.
Proof. vm_compute. reflexivity. Qed.

(** X5.  Send Offer on a ride whose price buffer was never written
    ([offerPrices[rideId]] is [undefined]), is empty or holds white space
    only is turned down on the spot: the view stays, one "Invalid price"
    notification is shown, and nothing goes over the network. *)
Theorem handleSendOffer_without_price :
  forall (rideId : Z) (v : View),
    offerPrices v !! rideId = None \/
    (exists s, offerPrices v !! rideId = Some s /\ JS.blank s = true) ->
    rejected v rideId = true /\
    fst (handleSendOffer rideId v) = v /\
    network_calls (snd (handleSendOffer rideId v)) = [] /\
    exists t, snd (handleSendOffer rideId v) = [toast t] /\
              Toast.title t = "Invalid price"%string.
Proof.
  intros rideId v Hbuf.
  assert (Hrej : rejected v rideId = true).
  { unfold rejected. destruct Hbuf as [-> | (s & -> & Hb)].
    - rewrite parseFloat_undefined. reflexivity.
    - rewrite (parseFloat_blank _ Hb). reflexivity. }
  rewrite (handleSendOffer_rejected _ _ Hrej).
  split; [exact Hrej |]. split; [reflexivity |]. split; [reflexivity |].
  eexists. split; reflexivity.
Qed.

Lemma handleSendOffer_without_price_witness :
  rejected initial 7 = true /\
  fst (handleSendOffer 7 initial) = initial /\
  network_calls (snd (handleSendOffer 7 initial)) = [] /\
  exists t, snd (handleSendOffer 7 initial) = [toast t] /\
            Toast.title t = "Invalid price"%string.
Proof.
  apply (handleSendOffer_without_price 7 initial). left. reflexivity.
Defined.

(** X6.  Two clicks on Send Offer in a row send at most one offer: the
    first click that passes the guard empties the buffer, so the second
    finds an empty one and is turned down with "Invalid price". *)
Theorem second_click_sends_nothing :
  forall (rideId : Z) (v : View),
    let twice := run step [SendOfferClicked rideId; SendOfferClicked rideId] v in
    (length (List.filter is_request (snd twice)) <= 1)%nat /\
    (rejected v rideId = false ->
     offerPrices (fst twice) !! rideId = Some ""%string /\
     exists t, snd twice =
                 [request (POST_offer (JS.parseFloat (offerPrices v !! rideId)) rideId);
                  toast t] /\
               Toast.title t = "Invalid price"%string).
Proof.
  intros rideId v twice.
  assert (Hfst : fst twice = fst (handleSendOffer rideId (fst (handleSendOffer rideId v)))).
  { unfold twice. rewrite !run_cons_fst. reflexivity. }
  assert (Hsnd : snd twice =
            snd (handleSendOffer rideId v) ++
            snd (handleSendOffer rideId (fst (handleSendOffer rideId v))) ++ []).
  { unfold twice. rewrite !run_cons_snd. reflexivity. }
  rewrite Hfst, Hsnd. clear Hfst Hsnd.
  destruct (rejected v rideId) eqn:Hrej.
  - rewrite (handleSendOffer_rejected _ _ Hrej). cbn [fst snd].
    rewrite (handleSendOffer_rejected _ _ Hrej).
    split; [cbn; repeat constructor | discriminate].
  - rewrite (handleSendOffer_accepted _ _ Hrej). cbn [fst snd].
    set (v1 := fst (setOfferPrices (<[rideId := ""%string]> (offerPrices v)) v)).
    assert (Hrej1 : rejected v1 rideId = true).
    { unfold rejected, v1. cbn [setOfferPrices set fst offerPrices].
      rewrite lookup_insert_eq. vm_compute. reflexivity. }
    rewrite (handleSendOffer_rejected _ _ Hrej1).
    split; [cbn; repeat constructor |].
    intros _. split.
    + unfold v1. cbn [setOfferPrices set fst offerPrices]. apply lookup_insert_eq.
    + eexists. split; reflexivity.
Qed.

Lemma second_click_sends_nothing_witness :
  let v := fst (run step [PriceChanged 7 "12.5"] initial) in
  offerPrices (fst (run step [SendOfferClicked 7; SendOfferClicked 7] v)) !! 7
    = Some ""%string /\
  length (List.filter is_request
            (snd (run step [SendOfferClicked 7; SendOfferClicked 7] v))) = 1%nat.
Proof.
  intros v.
  destruct (second_click_sends_nothing 7 v) as [_ Hsent].
  destruct Hsent as [Hbuf (t & Heff & _)]; [vm_compute; reflexivity |].
  split; [exact Hbuf |]. rewrite Heff. reflexivity.
Defined.

(** X7.  What is typed into the price input of a ride is what the card
    of that ride shows, whatever was there before, and it shows on no
    other ride's card; after an offer that passes the guard the input of
    that ride shows empty. *)
Theorem price_input_shows_what_was_typed :
  forall (v : View) (rideId : Z) (typed : string) (ride : Ride),
    let m' := offerPrices (fst (step (PriceChanged rideId typed) v)) in
    (id ride <> rideId -> rideAction m' ride = rideAction (offerPrices v) ride) /\
    (id ride = rideId ->
     JS.differ_only_in_case "REQUESTED" (status ride) = true ->
     rideAction m' ride = PriceInput typed rideId /\
     (rejected v rideId = false ->
      rideAction (offerPrices (fst (handleSendOffer rideId v))) ride
        = PriceInput "" rideId)).
Proof.
  intros v rideId typed ride m'. split.
  - intros Hne. unfold rideAction, priceValue, m'.
    cbn [step setOfferPrices set fst offerPrices].
    rewrite lookup_insert_ne by congruence. reflexivity.
  - intros Hid Hreq.
    destruct (rideAction_by_status m' ride) as (Hshow & _ & _).
    split.
    + rewrite (Hshow Hreq). unfold priceValue, m'.
      cbn [step setOfferPrices set fst offerPrices].
      rewrite Hid, lookup_insert_eq. reflexivity.
    + intros Hok. rewrite (handleSendOffer_accepted _ _ Hok).
      destruct (rideAction_by_status
                  (offerPrices (fst (setOfferPrices (<[rideId := ""%string]> (offerPrices v)) v)))
                  ride) as (Hshow' & _ & _).
      cbn [fst]. rewrite (Hshow' Hreq). unfold priceValue.
      cbn [setOfferPrices set fst offerPrices].
      rewrite Hid, lookup_insert_eq. reflexivity.
Qed.

Lemma price_input_shows_what_was_typed_witness :
  rideAction (offerPrices (fst (step (PriceChanged 7 "12.5") initial))) sample_ride
    = PriceInput "12.5" 7 /\
  rideAction (offerPrices (fst (step (PriceChanged 8 "30") initial))) sample_ride
    = rideAction (offerPrices initial) sample_ride.
Proof.
  destruct (price_input_shows_what_was_typed initial 7 "12.5" sample_ride) as [_ Hmine].
  destruct (price_input_shows_what_was_typed initial 8 "30" sample_ride) as [Hother _].
  split.
  - apply Hmine; reflexivity.
  - apply Hother. discriminate.
Defined.

End DashboardPrices.

(* ===================================================================== *)
(** * Sorting and filtering *)
(* ===================================================================== *)

Section SortFilter.
Context {A : Type} (cmp : A -> A -> Q).
Hypothesis after_asym : forall x y, JS.after cmp x y = true -> JS.after cmp y x = false.
Hypothesis precedes_trans :
  forall x y z, JS.after cmp x y = false -> JS.after cmp y z = false ->
                JS.after cmp x z = false.

Lemma StronglySorted_filter (R : A -> A -> Prop) (p : A -> bool) (l : list A) :
  StronglySorted R l -> StronglySorted R (List.filter p l).
Proof.
  induction 1 as [|x l Hl IH Hx]; cbn; [constructor |].
  destruct (p x); [| exact IH]. constructor; [exact IH |].
  rewrite List.Forall_forall in *. intros y Hy. apply Hx.
  apply filter_In in Hy. tauto.
Qed.

Lemma filter_swap (p q : A -> bool) (l : list A) :
  List.filter p (List.filter q l) = List.filter q (List.filter p l).
Proof.
  induction l as [|x l IH]; [reflexivity |]. cbn.
  destruct (q x) eqn:Eq, (p x) eqn:Ep; cbn; rewrite ?Eq, ?Ep, IH; reflexivity.
Qed.

(** Dropping elements before the sort or after it comes to the same. *)
Lemma sort_filter (p : A -> bool) (l : list A) :
  List.filter p (JS.sort cmp l) = JS.sort cmp (List.filter p l).
Proof using after_asym precedes_trans.
  apply sort_unique; try assumption.
  - apply StronglySorted_filter. apply sort_ordered.
    + intros x y. apply after_asym.
    + intros x y E. exact E.
    + intros x y z. apply precedes_trans.
  - intros a. rewrite filter_swap. rewrite (filter_swap _ p l). f_equal.
    apply sort_ties. intros x y Hx Hy.
    apply andb_true_iff in Hx as [Hxa _]. apply andb_true_iff in Hy as [_ Hay].
    apply negb_true_iff in Hxa, Hay. apply (precedes_trans x a y); assumption.
Qed.

End SortFilter.

(* ===================================================================== *)
(** * OffersModal: rendering, declining, accepting *)
(* ===================================================================== *)

Section ModalRendering.
Import OffersModal.

(** X8.  Rendering twice comes to rendering once: the second render
    lists the same offers in the same order and leaves the cached array as
    the first one left it. *)
Theorem sortedOffers_idempotent :
  forall (v : View),
    sortedOffers (fst (sortedOffers v)) = sortedOffers v.
Proof.
  intros v. destruct (offers v) as [l |] eqn:Hl.
  - rewrite (sortedOffers_in_place v l Hl). cbn [fst].
    rewrite (sortedOffers_in_place _ (JS.sort (compareFn (sortBy v)) l)) by reflexivity.
    cbn [sortBy pin isOpen]. rewrite sort_again. reflexivity.
  - unfold sortedOffers. rewrite Hl. cbn [fst]. rewrite Hl. reflexivity.
Qed.

(** X9.  With offers in the cache, declining one and rendering lists
    what was listed before without the declined offer, the others in the
    order they had; it makes no difference whether the list had been
    rendered before the decline. *)
Theorem decline_keeps_rendered_order :
  forall (rideId : Z) (v : View) (l : list Offer) (offerId : Z),
    offers v = Some l ->
    let shown := JS.sort (compareFn (sortBy v)) l in
    let kept := List.filter (fun o => negb (id o =? offerId)) shown in
    snd (sortedOffers v) = Some shown /\
    snd (sortedOffers (fst (run (step rideId) [Rendered; DeclineClicked offerId] v)))
      = Some kept /\
    snd (sortedOffers (fst (handleDecline offerId v))) = Some kept.
Proof.
  intros rideId v l offerId Hl shown kept.
  split; [rewrite (sortedOffers_in_place v l Hl); reflexivity |].
  split.
  - rewrite !run_cons_fst. cbn [run skip fst step].
    rewrite (sortedOffers_in_place v l Hl). cbn [fst].
    rewrite handleDecline_eq. cbn [fst offers sortBy pin isOpen].
    unfold sortedOffers. cbn [offers sortBy fst snd].
    f_equal. unfold kept, shown.
    rewrite <- sort_filter by (apply compareFn_asym || apply compareFn_trans).
    rewrite sort_again. reflexivity.
  - rewrite handleDecline_eq, Hl. unfold sortedOffers. cbn [offers sortBy fst snd].
    f_equal. symmetry. apply sort_filter; [apply compareFn_asym | apply compareFn_trans].
Qed.

Lemma decline_keeps_rendered_order_witness :
  let l := [sample_offer; offer_with sample_offer 2 8 4.9; offer_with sample_offer 3 9 4.0] in
  let v := fst (setOffers (Some l) initial) in
  option_map (List.map id) (snd (sortedOffers v)) = Some [2; 3; 1] /\
  option_map (List.map id)
    (snd (sortedOffers (fst (run (step 7) [Rendered; DeclineClicked 3] v)))) = Some [2; 1].
Proof.
  intros l v.
  destruct (decline_keeps_rendered_order 7 v l 3 eq_refl) as (Hshown & Hkept & _).
  rewrite Hshown, Hkept. split; reflexivity.
Defined.

End ModalRendering.

Section ModalSessions.
Import OffersModal.

(** A property that the handlers of the events allowed by [ok] keep holds
    after every trace of such events. *)
Lemma run_invariant_on {V R K Ev : Type} (step : Ev -> Handler V R K)
    (ok : Ev -> bool) (P : V -> Prop) (evs : list Ev) (v : V) :
  (forall ev v', ok ev = true -> P v' -> P (fst (step ev v'))) ->
  forallb ok evs = true ->
  P v -> P (fst (run step evs v)).
Proof.
  intros Hstep. revert v. induction evs as [|ev evs IH]; intros v Hevs Hv.
  - exact Hv.
  - cbn [forallb] in Hevs. apply andb_true_iff in Hevs as [Hev Hevs].
    rewrite run_cons_fst. apply IH; [exact Hevs |]. apply Hstep; assumption.
Qed.





Lemma step_cache_within (rideId : Z) (fetched : list Offer) (ev : Event) (v : View) :
  fetches ev = false ->
  (exists cached, offers v = Some cached /\
                  (forall o, In o cached -> In o fetched) /\
                  (length cached <= length fetched)%nat) ->
  exists cached, offers (fst (step rideId ev v)) = Some cached /\
                 (forall o, In o cached -> In o fetched) /\
                 (length cached <= length fetched)%nat.
Proof.
  intros Hev (cached & Hc & Hin & Hlen).
  destruct ev as [k | o | o | | | | data | | | | l]; try discriminate Hev; cbn [step];
    try (exists cached; cbn; auto; fail).
  - rewrite handleDecline_eq, Hc. cbn [fst offers].
    eexists. split; [reflexivity |]. split.
    + intros x Hx. apply filter_In in Hx as [Hx _]. apply Hin, Hx.
    + eapply Nat.le_trans; [apply List.filter_length_le | exact Hlen].
  - rewrite (sortedOffers_in_place v cached Hc). cbn [fst offers].
    eexists. split; [reflexivity |]. split.
    + intros x Hx. apply Hin.
      apply (Permutation_in x
               (Permutation_sym (sort_perm (compareFn (sortBy v)) cached))), Hx.
    + rewrite <- (Permutation_length (sort_perm (compareFn (sortBy v)) cached)). exact Hlen.
Qed.

(** X12.  Between two fetches the modal never holds an offer that the
    last fetch did not deliver, nor more offers than it delivered:
    whatever is selected, rendered, declined, accepted or cancelled after
    a fetch, the cache holds a list, each of its offers is one of the
    fetched ones, and it is no longer than the fetched list. *)
Theorem cache_within_last_fetch :
  forall (rideId : Z) (fetched : list Offer) (evs : list Event) (v : View),
    forallb (fun ev => negb (fetches ev)) evs = true ->
    exists cached,
      offers (fst (run (step rideId) (OffersFetched fetched :: evs) v)) = Some cached /\
      (forall o, In o cached -> In o fetched) /\
      (length cached <= length fetched)%nat.
Proof.
  intros rideId fetched evs v Hevs. rewrite run_cons_fst.
  apply (run_invariant_on (step rideId) (fun ev => negb (fetches ev))
           (fun v' => exists cached, offers v' = Some cached /\
                                     (forall o, In o cached -> In o fetched) /\
                                     (length cached <= length fetched)%nat)).
  - intros ev v' Hev. apply step_cache_within. apply negb_true_iff, Hev.
  - exact Hevs.
  - exists fetched. split; [reflexivity |]. split; [auto | apply Nat.le_refl].
Qed.

Lemma cache_within_last_fetch_witness :
  let l := [sample_offer; offer_with sample_offer 2 8 4.9] in
  exists cached,
    offers (fst (run (step 7)
                   (OffersFetched l :: [Rendered; DeclineClicked 1; SortBySelected by_rating;
                                        Rendered]) initial)) = Some cached /\
    (forall o, In o cached -> In o l) /\
    (length cached <= length l)%nat.
Proof.
  intros l.
  apply (cache_within_last_fetch 7 l
           [Rendered; DeclineClicked 1; SortBySelected by_rating; Rendered] initial).
  reflexivity.
Defined.

End ModalSessions.

Section ModalBody.
Import OffersModal.

Lemma sort_nil_iff {A : Type} (cmp : A -> A -> Q) (l : list A) :
  JS.sort cmp l = [] <-> l = [].
Proof.
  split; [| intros ->; reflexivity].
  intros Hs. apply Permutation_nil. rewrite <- Hs. apply Permutation_sym, sort_perm.
Qed.

(** X13.  The body of the modal.  "No offers available yet." is shown
    exactly when the query is neither loading nor in error and holds no
    data or an empty list; offer boxes are shown only for a list that is
    not empty, and they are the sorted offers; and whichever of the four
    bodies is shown, loading and error texts included, the cached array
    has been sorted by the render. *)
Theorem body_cases :
  forall (isLoading isError : bool) (v : View),
    (snd (body isLoading isError v) = NoOffersYet <->
       isLoading = false /\ isError = false /\
       (offers v = None \/ offers v = Some [])) /\
    (forall l, snd (body isLoading isError v) = OfferCards l ->
               l <> [] /\ isLoading = false /\ isError = false /\
               snd (sortedOffers v) = Some l) /\
    fst (body isLoading isError v) = fst (sortedOffers v).
Proof.
  intros isLoading isError v. unfold body.
  destruct (offers v) as [l |] eqn:Hl.
  - rewrite (sortedOffers_in_place v l Hl).
    destruct (JS.sort (compareFn (sortBy v)) l) as [|o s] eqn:Hs.
    + apply sort_nil_iff in Hs. subst l.
      destruct isLoading, isError; cbn; (split; [| split; [| reflexivity]]);
        try (split; [discriminate | intros (H1 & H2 & _); discriminate]);
        try (intros l' Hl'; discriminate).
      split; [auto | reflexivity].
    + assert (Hne : l <> []).
      { intros ->. discriminate Hs. }
      destruct isLoading, isError; cbn; (split; [| split; [| reflexivity]]);
        try (split; [discriminate | intros (H1 & H2 & _); discriminate]);
        try (intros l' Hl'; discriminate).
      * split; [discriminate |]. intros (_ & _ & [Hn | Hn]); [discriminate |].
        injection Hn as ->. contradiction.
      * intros l' Hl'. injection Hl' as <-. repeat split. discriminate.
  - unfold sortedOffers. rewrite Hl.
    destruct isLoading, isError; cbn; (split; [| split; [| reflexivity]]);
      try (split; [discriminate | intros (H1 & H2 & _); discriminate]);
      try (intros l' Hl'; discriminate).
    split; [auto | reflexivity].
Qed.

Lemma body_cases_witness :
  snd (body false false (fst (setOffers (Some []) initial))) = NoOffersYet /\
  snd (body false false initial) = NoOffersYet.
Proof.
  destruct (body_cases false false (fst (setOffers (Some []) initial))) as [[_ Hempty] _].
  destruct (body_cases false false initial) as [[_ Hnone] _].
  split.
  - apply Hempty. repeat split. right. reflexivity.
  - apply Hnone. repeat split. left. reflexivity.
Defined.

Lemma StronglySorted_weaken {A : Type} (R S : A -> A -> Prop) (l : list A) :
  (forall x y, R x y -> S x y) -> StronglySorted R l -> StronglySorted S l.
Proof.
  intros HRS. induction 1 as [|x l Hl IH Hx]; constructor; [exact IH |].
  eapply List.Forall_impl; [| exact Hx]. intros y. apply HRS.
Qed.

Lemma Qeq_bool_both_le (p q : Q) :
  Qle_bool p q && Qle_bool q p = Qeq_bool p q.
Proof.
  destruct (Qeq_bool p q) eqn:E.
  - apply Qeq_bool_iff in E. apply andb_true_iff. split; apply Qle_bool_iff; lra.
  - apply not_true_is_false. intros Hb. apply andb_true_iff in Hb as [H1 H2].
    apply Qle_bool_iff in H1, H2. apply not_true_iff_false in E. apply E.
    apply Qeq_bool_iff. lra.
Qed.

Lemma tie_is_same_key (k : SortKey) (a x : Offer) :
  negb (JS.after (compareFn k) x a) && negb (JS.after (compareFn k) a x)
    = Qeq_bool (key_of k x) (key_of k a).
Proof.
  destruct k; cbn [key_of].
  - rewrite !after_by_price, !negb_involutive. apply Qeq_bool_both_le.
  - rewrite !after_by_rating, !negb_involutive, andb_comm. apply Qeq_bool_both_le.
Qed.

(** X14.  What the render lists is fixed by its two properties: with
    offers in the cache, a list that is in the order of the selected key
    and that holds, for every value of the key, the cached offers of that
    value in their cached order is the list the render produces. *)
Theorem sortedOffers_is_the_only_arrangement :
  forall (v : View) (l out : list Offer),
    offers v = Some l ->
    ordered_by (sortBy v) out ->
    (forall q, tied (key_of (sortBy v)) q out = tied (key_of (sortBy v)) q l) ->
    snd (sortedOffers v) = Some out.
Proof.
  intros v l out Hl Hord Hties.
  rewrite (sortedOffers_in_place v l Hl). cbn [snd]. f_equal. symmetry.
  apply sort_compareFn_determined.
  - destruct (sortBy v); cbn [ordered_by] in Hord.
    + eapply StronglySorted_weaken; [| exact Hord].
      intros x y Hxy. rewrite after_by_price, negb_false_iff. apply Qle_bool_iff, Hxy.
    + eapply StronglySorted_weaken; [| exact Hord].
      intros x y Hxy. rewrite after_by_rating, negb_false_iff. apply Qle_bool_iff, Hxy.
  - intros a.
    rewrite (List.filter_ext _ (fun x => Qeq_bool (key_of (sortBy v) x) (key_of (sortBy v) a)))
      by (intros x; apply tie_is_same_key).
    rewrite (List.filter_ext (fun x => negb (JS.after (compareFn (sortBy v)) x a) &&
                                       negb (JS.after (compareFn (sortBy v)) a x))
               (fun x => Qeq_bool (key_of (sortBy v) x) (key_of (sortBy v) a)))
      by (intros x; apply tie_is_same_key).
    apply Hties.
Qed.

Lemma sortedOffers_is_the_only_arrangement_witness :
  snd (sortedOffers
         (fst (setOffers (Some [sample_offer; offer_with sample_offer 2 8 4.9]) initial)))
    = Some [offer_with sample_offer 2 8 4.9; sample_offer].
Proof.
  apply (sortedOffers_is_the_only_arrangement
           (fst (setOffers (Some [sample_offer; offer_with sample_offer 2 8 4.9]) initial))
           [sample_offer; offer_with sample_offer 2 8 4.9]
           [offer_with sample_offer 2 8 4.9; sample_offer]).
  - reflexivity.
  - cbn. repeat constructor; cbn; discriminate.
  - intros q. unfold tied. cbn.
    destruct (Qeq_bool 10 q) eqn:E10, (Qeq_bool 8 q) eqn:E8; try reflexivity.
    apply Qeq_bool_iff in E10, E8. exfalso.
    assert (Habs : (10 == 8)%Q) by (rewrite E10, E8; reflexivity).
    discriminate Habs.
Defined.

End ModalBody.

Section DashboardBuffers.
Import DriverDashboard.

Lemma step_keeps_buffer_defined (ev : Event) (v : View) (rid : Z) :
  is_Some (offerPrices v !! rid) -> is_Some (offerPrices (fst (step ev v)) !! rid).
Proof.
  intros Hsome.
  destruct (writes_prices ev) eqn:Hw.
  - destruct ev as [r s | r | r | s | | | | | data | | l]; try discriminate Hw; cbn [step].
    + cbn [setOfferPrices set fst offerPrices].
      destruct (decide (r = rid)) as [-> | Hne].
      * rewrite lookup_insert_eq. eauto.
      * rewrite lookup_insert_ne by exact Hne. exact Hsome.
    + destruct (rejected v r) eqn:Hrej.
      * rewrite (handleSendOffer_rejected _ _ Hrej). exact Hsome.
      * rewrite (handleSendOffer_accepted _ _ Hrej).
        cbn [setOfferPrices set fst offerPrices].
        destruct (decide (r = rid)) as [-> | Hne].
        -- rewrite lookup_insert_eq. eauto.
        -- rewrite lookup_insert_ne by exact Hne. exact Hsome.
  - rewrite (step_keeps_prices ev v Hw). exact Hsome.
Qed.

(** X15.  A price buffer, once written, is never removed: whatever the
    driver and the network do afterwards (polls that no longer list the
    ride included), [offerPrices] still has an entry for that ride; only
    typing, or a sent offer, which empties it, changes its text. *)
Theorem buffers_are_never_removed :
  forall (evs : list Event) (v : View) (rid : Z),
    is_Some (offerPrices v !! rid) ->
    is_Some (offerPrices (fst (run step evs v)) !! rid) /\
    (forallb (fun ev => negb (writes_prices ev)) evs = true ->
     offerPrices (fst (run step evs v)) !! rid = offerPrices v !! rid).
Proof.
  intros evs v rid Hsome. split.
  - apply (run_invariant step (fun v' => is_Some (offerPrices v' !! rid))).
    + intros ev v'. apply step_keeps_buffer_defined.
    + exact Hsome.
  - intros Hevs. rewrite (run_keeps_prices evs v Hevs). reflexivity.
Qed.

Lemma buffers_are_never_removed_witness :
  let v := fst (run step [PriceChanged 7 "12.5"] initial) in
  is_Some (offerPrices
             (fst (run step [RidesFetched []; SendOfferClicked 7; CreateOfferSucceeded;
                             RidesFetched []] v)) !! 7).
Proof.
  intros v.
  apply (buffers_are_never_removed
           [RidesFetched []; SendOfferClicked 7; CreateOfferSucceeded; RidesFetched []] v 7).
  vm_compute. eauto.
Defined.

End DashboardBuffers.
